(** * repo2txt: the filter and the two traversal passes

    A shallow embedding of [src/repo2txt/repo2txt.py].  Paths are Python
    [str] values, embedded as [string] (a sequence of bytes; names are
    taken to be UTF-8, for which byte order and byte prefixes agree with
    Python's code-point order and prefixes; [str.lower] is modelled on
    the ASCII letters).  The filesystem is an oracle record the run reads
    from; what the run writes is collected as a list of write events, each
    of which renders to the exact text of one [output_file.write] call. *)

From Stdlib Require Import String Ascii List Bool Arith NArith Lia Permutation Sorted.
Import ListNotations.
Local Open Scope string_scope.
Local Open Scope list_scope.

Set Implicit Arguments.

(** ** Python [str] operations *)
Module PyStr.

(** [s.startswith(p)] for a single string [p]. *)
Fixpoint startswith (s p : string) : bool :=
  match p with
  | EmptyString => true
  | String a p' =>
      match s with
      | EmptyString => false
      | String b s' => Ascii.eqb a b && startswith s' p'
      end
  end.

(** [s.startswith(t)] for a tuple [t]: true when [s] starts with one of
    the members of the tuple. *)
Definition startswith_tuple (s : string) (t : list string) : bool :=
  existsb (startswith s) t.

(** [s.endswith(c)] for a one-character string. *)
Fixpoint endswith_char (s : string) (c : ascii) : bool :=
  match s with
  | EmptyString => false
  | String a EmptyString => Ascii.eqb a c
  | String _ s' => endswith_char s' c
  end.

(** [s.split(sep)] for a one-character separator: the pieces between
    the separators, never an empty list. *)
Fixpoint split (sep : ascii) (s : string) : list string :=
  match s with
  | EmptyString => [EmptyString]
  | String a s' =>
      if Ascii.eqb a sep then EmptyString :: split sep s'
      else match split sep s' with
           | [] => [String a EmptyString]
           | piece :: rest => String a piece :: rest
           end
  end.

(** [sep.join(pieces)]. *)
Definition join (sep : string) (pieces : list string) : string :=
  String.concat sep pieces.

Definition is_upper (a : ascii) : bool :=
  let n := nat_of_ascii a in ((65 <=? n) && (n <=? 90))%nat.

Definition lower_char (a : ascii) : ascii :=
  if is_upper a then ascii_of_nat (nat_of_ascii a + 32) else a.

(** [s.lower()], on the ASCII letters. *)
Fixpoint lower (s : string) : string :=
  match s with
  | EmptyString => EmptyString
  | String a s' => String (lower_char a) (lower s')
  end.

(** [x in l] for a list of strings. *)
Definition mem (x : string) (l : list string) : bool :=
  existsb (String.eqb x) l.

(** [s * n]. *)
Fixpoint times (s : string) (n : nat) : string :=
  match n with
  | O => EmptyString
  | S n' => (s ++ times s n')%string
  end.

(** Truth value of a string: the empty string is falsy. *)
Definition truthy (s : string) : bool :=
  match s with EmptyString => false | _ => true end.

(** The ASCII characters that [str.strip] removes. *)
Definition is_space (a : ascii) : bool :=
  let n := nat_of_ascii a in
  ((n =? 32) || ((9 <=? n) && (n <=? 13)) || ((28 <=? n) && (n <=? 31)))%nat.

Fixpoint lstrip (s : string) : string :=
  match s with
  | EmptyString => EmptyString
  | String a s' => if is_space a then lstrip s' else s
  end.

Fixpoint rstrip (s : string) : string :=
  match s with
  | EmptyString => EmptyString
  | String a s' =>
      match rstrip s' with
      | EmptyString => if is_space a then EmptyString else String a EmptyString
      | r => String a r
      end
  end.

(** [s.strip()]. *)
Definition strip (s : string) : string := rstrip (lstrip s).

End PyStr.

(** ** [os.path] on POSIX *)
Module OsPath.
Import PyStr.

Definition sep : ascii := "/"%char.
Definition dot : ascii := "."%char.

(** [os.path.basename(p)]: what follows the last slash. *)
Definition basename (p : string) : string :=
  last (split sep p) EmptyString.

Definition isabs (p : string) : bool := startswith p "/".

(** [os.path.join(a, b)]. *)
Definition join (a b : string) : string :=
  if startswith b "/" then b
  else if negb (truthy a) || endswith_char a sep then (a ++ b)%string
  else (a ++ "/" ++ b)%string.

(** [os.path.join] applied to an unpacked non-empty list of parts. *)
Definition join_all (parts : list string) : string :=
  match parts with
  | [] => EmptyString
  | a :: rest => fold_left join rest a
  end.

Fixpoint all_dots (s : string) : bool :=
  match s with
  | EmptyString => true
  | String a s' => Ascii.eqb a dot && all_dots s'
  end.

(** [os.path.splitext(p)[1]]: the extension starts at the last dot of
    the basename, unless only dots (or nothing) precede that dot. *)
Definition splitext_ext (p : string) : string :=
  let pieces := split dot (basename p) in
  let stem := PyStr.join "." (removelast pieces) in
  match pieces with
  | [] | [_] => EmptyString
  | _ => if all_dots stem then EmptyString
         else String dot (last pieces EmptyString)
  end.

(** The component loop of [os.path.normpath]; [comps] is the stack of
    kept components, last one first. *)
Fixpoint norm_comps (rooted : bool) (kept : list string) (comps : list string)
  : list string :=
  match comps with
  | [] => rev kept
  | comp :: rest =>
      if String.eqb comp "" || String.eqb comp "." then
        norm_comps rooted kept rest
      else if negb (String.eqb comp "..")
              || (negb rooted && match kept with [] => true | _ => false end)
              || match kept with k :: _ => String.eqb k ".." | [] => false end
      then norm_comps rooted (comp :: kept) rest
      else norm_comps rooted (tl kept) rest
  end.

(** [os.path.normpath(path)]. *)
Definition normpath (path : string) : string :=
  if negb (truthy path) then "."
  else
    let initial_slashes :=
      if startswith path "/" then
        if startswith path "//" && negb (startswith path "///") then 2 else 1
      else 0 in
    let comps := norm_comps (negb (initial_slashes =? 0)%nat) [] (split sep path) in
    let body := PyStr.join "/" comps in
    let path' := (times "/" initial_slashes ++ body)%string in
    if truthy path' then path' else ".".

(** [os.path.abspath(path)], with the working directory [cwd]. *)
Definition abspath (cwd path : string) : string :=
  normpath (if isabs path then path else join cwd path).

Fixpoint commonprefix_len (a b : list string) : nat :=
  match a, b with
  | x :: a', y :: b' => if String.eqb x y then S (commonprefix_len a' b') else 0
  | _, _ => 0
  end.

Definition nonempty_pieces (p : string) : list string :=
  filter truthy (split sep p).

(** [os.path.relpath(path, start)]; [None] is the [ValueError] raised
    for an empty [path]. *)
Definition relpath (cwd path start : string) : option string :=
  if negb (truthy path) then None
  else
    let start_list := nonempty_pieces (abspath cwd start) in
    let path_list := nonempty_pieces (abspath cwd path) in
    let i := commonprefix_len start_list path_list in
    let rel_list := repeat ".." (List.length start_list - i) ++ skipn i path_list in
    match rel_list with
    | [] => Some "."
    | _ => Some (join_all rel_list)
    end.

End OsPath.

(** ** The world the run reads and the text it writes *)

(** What [os.path.isdir] and [os.path.isfile] see at a path: a directory,
    a regular file, something else that exists (a FIFO, a socket, a
    device), or nothing (a missing entry or a dangling link). *)
Inductive entry_kind : Type := KDir | KFile | KOther | KMissing.

(** The filesystem as an oracle.  [listdir] answers with the names in a
    directory or with the description of the [OSError] it raises;
    [read_file] answers with the lines a text read yields before it ends
    or fails, and the description of the failure if there is one (a file
    that cannot be opened yields no line). *)
Record FS : Type := {
  getcwd : string;
  kind : string -> entry_kind;
  listdir : string -> list string + string;
  read_file : string -> list string * option string
}.

Definition isdir (fs : FS) (p : string) : bool :=
  match kind fs p with KDir => true | _ => false end.

Definition isfile (fs : FS) (p : string) : bool :=
  match kind fs p with KFile => true | _ => false end.

Definition exists_ (fs : FS) (p : string) : bool :=
  match kind fs p with KMissing => false | _ => true end.

(** The constants the module loads from [config.json] when it is
    imported, each list a JSON array of strings; the file is taken as
    given and its loading to succeed. *)
Record Config : Type := {
  IMAGE_EXTENSIONS : list string;
  VIDEO_EXTENSIONS : list string;
  AUDIO_EXTENSIONS : list string;
  DOCUMENT_EXTENSIONS : list string;
  EXECUTABLE_EXTENSIONS : list string;
  SETTINGS_EXTENSIONS : list string;
  ADDITIONAL_IGNORE_TYPES : list string;
  DEFAULT_OUTPUT_FILE : string
}.

(** The [argparse.Namespace] that [parse_args] returns. *)
Record Args : Type := {
  repo_path : string;
  output_file : string;
  ignore_files : list string;
  ignore_types : list string;
  exclude_dir : list string;
  ignore_settings : bool;
  include_dir : option string;
  use_gitignore : bool
}.

Definition nl : string := String (ascii_of_nat 10) EmptyString.

(** One [output_file.write] call.  [TreeEntry] and [FileBegins] also
    record the path of the item they are written for. *)
Inductive event : Type :=
| Text (s : string)
| TreeRoot (name : string)
| TreeEntry (item_path prefix new_prefix name : string)
| FileBegins (item_path : string) (depth : nat) (relative_path : string)
| ContentLine (depth : nat) (line : string)
| ReadError (depth : nat) (e : string)
| FileEnds (depth : nat) (relative_path : string).

Definition indentation (depth : nat) : string := PyStr.times "  " depth.

(** The text a write puts in the output file. *)
Definition render (ev : event) : string :=
  match ev with
  | Text s => s
  | TreeRoot name => name ++ "/" ++ nl
  | TreeEntry _ prefix new_prefix name => prefix ++ new_prefix ++ name ++ nl
  | FileBegins _ depth relative_path =>
      indentation depth ++ "[File Begins] " ++ relative_path ++ nl
  | ContentLine depth line => indentation depth ++ line
  | ReadError depth e => indentation depth ++ "Error reading file: " ++ e ++ nl
  | FileEnds depth relative_path =>
      nl ++ indentation depth ++ "[File Ends] " ++ relative_path ++ nl ++ nl
  end%string.

Definition document (evs : list event) : string :=
  String.concat "" (map render evs).

(** ** Computations of the run: a result or an exception, and the writes *)

Inductive res (A : Type) : Type :=
| Ok (a : A)
| Raise (e : string)
| Limit.
Arguments Ok {A} a.
Arguments Raise {A} e.
Arguments Limit {A}.

Definition M (A : Type) : Type := (res A * list event)%type.

Definition ret {A} (a : A) : M A := (Ok a, []).

Definition bind {A B} (m : M A) (f : A -> M B) : M B :=
  match m with
  | (Ok a, w) => let '(r, w') := f a in (r, w ++ w')
  | (Raise e, w) => (Raise e, w)
  | (Limit, w) => (Limit, w)
  end.

Definition write (ev : event) : M unit := (Ok tt, [ev]).
Definition raise {A} (e : string) : M A := (Raise e, []).
Definition limit {A} : M A := (Limit, []).

Notation "x <- m ;; k" := (bind m (fun x => k))
  (at level 61, m at next level, right associativity).
Notation "m ;; k" := (bind m (fun _ => k))
  (at level 61, right associativity).

(** [for x in l: body(x)]. *)
Fixpoint for_each {A} (l : list A) (body : A -> M unit) : M unit :=
  match l with
  | [] => ret tt
  | x :: l' => body x ;; for_each l' body
  end.

(** [(x for x in l if keep(x))], consumed to a list. *)
Fixpoint filter_m {A} (keep : A -> M bool) (l : list A) : M (list A) :=
  match l with
  | [] => ret []
  | x :: l' =>
      k <- keep x ;;
      rest <- filter_m keep l' ;;
      ret (if k then x :: rest else rest)
  end.

(** [enumerate(l)]. *)
Definition enumerate {A} (l : list A) : list (nat * A) :=
  combine (seq 0 (length l)) l.

(** [list.sort] and [sorted] on strings. *)
Fixpoint insert_sorted (x : string) (l : list string) : list string :=
  match l with
  | [] => [x]
  | y :: l' => if String.leb x y then x :: l else y :: insert_sorted x l'
  end.

Definition sort (l : list string) : list string :=
  fold_right insert_sorted [] l.

(** ** The program *)
Section Repo2txt.
Import PyStr OsPath.

Variable fs : FS.
Variable config : Config.

Definition os_listdir (p : string) : M (list string) :=
  match listdir fs p with
  | inl names => ret names
  | inr e => raise e
  end.

Definition os_relpath (path start : string) : M string :=
  match relpath (getcwd fs) path start with
  | Some r => ret r
  | None => raise "no path specified"
  end.

Definition os_abspath (p : string) : string := abspath (getcwd fs) p.

(** The [for pattern in gitignore_patterns] loop of [should_ignore]. *)
Fixpoint gitignore_loop (item : string) (args : Args)
    (gitignore_patterns : list string) : M bool :=
  match gitignore_patterns with
  | [] => ret false
  | pattern :: rest =>
      rel <- os_relpath item (repo_path args) ;;
      if startswith_tuple rel (split sep pattern) then ret true
      else gitignore_loop item args rest
  end.

Definition should_ignore (item : string) (args : Args)
    (output_file_path : string) (gitignore_patterns : list string) : M bool :=
  let item_name := basename item in
  let file_ext := lower (splitext_ext item_name) in
  if String.eqb (os_abspath item) (os_abspath output_file_path) then ret true
  else if isdir fs item
          && match exclude_dir args with [] => false | _ => true end
          && mem item_name (exclude_dir args) then ret true
  else if match include_dir args with
          | Some d => truthy d
                      && negb (startswith (os_abspath item) (os_abspath d))
          | None => false
          end then ret true
  else if isfile fs item
          && (mem item_name (ignore_files args)
              || mem file_ext (ignore_types args)) then ret true
  else if ignore_settings args && mem file_ext (SETTINGS_EXTENSIONS config)
       then ret true
  else if use_gitignore args then gitignore_loop item args gitignore_patterns
  else ret false.

Definition load_gitignore_patterns (repo : string) : M (list string) :=
  let gitignore_path := join repo ".gitignore" in
  if exists_ fs gitignore_path then
    match read_file fs gitignore_path with
    | (lines, None) =>
        ret (map strip
               (filter (fun pattern =>
                          truthy (strip pattern)
                          && negb (startswith (strip pattern) "#"))
                       lines))
    | (_, Some e) => raise e
    end
  else ret [].

Definition corner : string := "└── ".
Definition tee : string := "├── ".
Definition blank4 : string := "    ".
Definition bar : string := "│   ".

Fixpoint write_tree (fuel : nat) (dir_path : string) (args : Args)
    (gitignore_patterns : list string) (prefix : string)
    (is_last is_root : bool) : M unit :=
  match fuel with
  | O => limit
  | S fuel' =>
      (if is_root then write (TreeRoot (basename dir_path)) else ret tt) ;;
      listed <- os_listdir dir_path ;;
      let items := sort listed in
      let num_items := length items in
      for_each (enumerate items) (fun '(index, item) =>
        let item_path := join dir_path item in
        ignored <- should_ignore item_path args (output_file args)
                     gitignore_patterns ;;
        if ignored then ret tt
        else
          let is_last_item := (index =? num_items - 1)%nat in
          let new_prefix := if is_last_item then corner else tee in
          let child_prefix := if is_last_item then blank4 else bar in
          write (TreeEntry item_path prefix new_prefix (basename item)) ;;
          if isdir fs item_path then
            let next_prefix := (prefix ++ child_prefix)%string in
            write_tree fuel' item_path args gitignore_patterns next_prefix
              is_last_item false
          else ret tt)
  end.

Definition write_file_content (file_path : string) (depth : nat) : M unit :=
  let '(lines, failure) := read_file fs file_path in
  for_each lines (fun line => write (ContentLine depth line)) ;;
  match failure with
  | None => ret tt
  | Some e => write (ReadError depth e)
  end.

Fixpoint write_file_contents_in_order (fuel : nat) (dir_path : string)
    (args : Args) (gitignore_patterns : list string) (depth : nat) : M unit :=
  match fuel with
  | O => limit
  | S fuel' =>
      listed <- os_listdir dir_path ;;
      kept <- filter_m (fun item =>
                ignored <- should_ignore (join dir_path item) args
                             (output_file args) gitignore_patterns ;;
                ret (negb ignored)) listed ;;
      let items := sort kept in
      for_each items (fun item =>
        let item_path := join dir_path item in
        relative_path <- os_relpath item_path (repo_path args) ;;
        if isdir fs item_path then
          write_file_contents_in_order fuel' item_path args
            gitignore_patterns (depth + 1)
        else if isfile fs item_path then
          write (FileBegins item_path depth relative_path) ;;
          write_file_content item_path depth ;;
          write (FileEnds depth relative_path)
        else ret tt)
  end.

(** What a run leaves behind: how it ended, the writes to the output
    file if that file was created at all, and the lines printed. *)
Record outcome : Type := {
  status : res unit;
  output : option (list event);
  printed : list string
}.

Definition normalise_args (args : Args) : Args :=
  {| repo_path := repo_path args;
     output_file := output_file args;
     ignore_files :=
       if list_eq_dec string_dec (ignore_files args) ["none"] then []
       else ignore_files args;
     ignore_types :=
       if list_eq_dec string_dec (ignore_types args) ["none"] then []
       else IMAGE_EXTENSIONS config ++ VIDEO_EXTENSIONS config
            ++ AUDIO_EXTENSIONS config ++ DOCUMENT_EXTENSIONS config
            ++ EXECUTABLE_EXTENSIONS config ++ ADDITIONAL_IGNORE_TYPES config;
     exclude_dir :=
       if list_eq_dec string_dec (exclude_dir args) ["none"] then []
       else exclude_dir args;
     ignore_settings := ignore_settings args;
     include_dir := include_dir args;
     use_gitignore := use_gitignore args |}.

Definition header : string :=
  ("This document provides a comprehensive overview of the repository's structure and contents." ++ nl
   ++ "The first section, titled 'Directory/File Tree', displays the repository's hierarchy in a tree format." ++ nl
   ++ "In this section, directories and files are listed using tree branches to indicate their structure and relationships." ++ nl
   ++ "Following the tree representation, the 'File Content' section details the contents of each file in the repository." ++ nl
   ++ "Each file's content is introduced with a '[File Begins]' marker followed by the file's relative path," ++ nl
   ++ "and the content is displayed verbatim. The end of each file's content is marked with a '[File Ends]' marker." ++ nl
   ++ "This format ensures a clear and orderly presentation of both the structure and the detailed contents of the repository." ++ nl ++ nl)%string.

(** The two passes of [main], as they follow each other inside the
    [with open(args.output_file, "w")] block. *)
Definition tree_section (fuel : nat) (args : Args)
    (gitignore_patterns : list string) : M unit :=
  write_tree fuel (repo_path args) args gitignore_patterns "" true true.

Definition content_section (fuel : nat) (args : Args)
    (gitignore_patterns : list string) : M unit :=
  write_file_contents_in_order fuel (repo_path args) args
    gitignore_patterns 0.

Definition main_body (fuel : nat) (args : Args)
    (gitignore_patterns : list string) : M unit :=
  write (Text ("Repository Documentation" ++ nl)) ;;
  write (Text header) ;;
  write (Text ("Directory/File Tree Begins -->" ++ nl ++ nl)) ;;
  tree_section fuel args gitignore_patterns ;;
  write (Text (nl ++ "<-- Directory/File Tree Ends")) ;;
  write (Text (nl ++ nl ++ "File Content Begin -->" ++ nl)) ;;
  content_section fuel args gitignore_patterns ;;
  write (Text (nl ++ "<-- File Content Ends" ++ nl ++ nl)).

Definition invalid_root_message (args : Args) : string :=
  ("Error: The specified directory does not exist, path is wrong or is not a directory: "
   ++ repo_path args)%string.

(** [main], from the namespace [parse_args] returned; [fuel] bounds the
    depth of the recursion, as the interpreter's recursion limit does.
    Opening the output file for writing is taken to succeed. *)
Definition main (fuel : nat) (parsed : Args) : outcome :=
  let args := normalise_args parsed in
  match (if use_gitignore args then load_gitignore_patterns (repo_path args)
         else ret []) with
  | (Ok gitignore_patterns, _) =>
      if negb (isdir fs (repo_path args)) then
        {| status := Ok tt; output := None;
           printed := [invalid_root_message args] |}
      else
        let '(r, written) := main_body fuel args gitignore_patterns in
        {| status := r; output := Some written; printed := [] |}
  | (Raise e, _) => {| status := Raise e; output := None; printed := [] |}
  | (Limit, _) => {| status := Limit; output := None; printed := [] |}
  end.

End Repo2txt.

(** What the pattern loop of [should_ignore] computes once the
    root-relative path [rel] is known: some piece of some pattern is a
    prefix of the characters of [rel]. *)
Definition gitignore_match (rel : string) (gitignore_patterns : list string)
  : bool :=
  existsb (fun pattern =>
             PyStr.startswith_tuple rel (PyStr.split OsPath.sep pattern))
    gitignore_patterns.

(** ** What the specification says of the gitignore and include rules *)

Fixpoint list_prefix (p l : list string) : bool :=
  match p, l with
  | [], _ => true
  | x :: p', y :: l' => String.eqb x y && list_prefix p' l'
  | _ :: _, [] => false
  end.

(** The root-relative path, split into segments, starts with the segments
    of the pattern. *)
Definition segment_prefix_match (rel pattern : string) : bool :=
  list_prefix (PyStr.split OsPath.sep pattern) (PyStr.split OsPath.sep rel).

(** The path lies in the subtree of the include-directory: the segments
    of its absolute form start with those of the directory's. *)
Definition in_subtree (cwd item dir : string) : bool :=
  list_prefix (OsPath.nonempty_pieces (OsPath.abspath cwd dir))
    (OsPath.nonempty_pieces (OsPath.abspath cwd item)).

(** ** The decision order of the filter, as the specification words it *)
Section Decision.
Import PyStr OsPath.

Variable fs : FS.
Variable config : Config.

(** Rule 1: the path is the configured output file, after
    absolute-path normalisation. *)
Definition rule_output_file (item output_file_path : string) : bool :=
  String.eqb (abspath (getcwd fs) item) (abspath (getcwd fs) output_file_path).

(** Rule 2: a directory whose basename is an excluded directory name. *)
Definition rule_excluded_dir (item : string) (args : Args) : bool :=
  isdir fs item && mem (basename item) (exclude_dir args).

(** Rule 3: an include-directory is configured and the absolute path
    does not start with the include-directory's absolute path. *)
Definition rule_include_dir (item : string) (args : Args) : bool :=
  match include_dir args with
  | Some d =>
      truthy d
      && negb (startswith (abspath (getcwd fs) item) (abspath (getcwd fs) d))
  | None => false
  end.

(** Rule 4: a file with an ignored basename or an ignored extension. *)
Definition rule_ignored_file (item : string) (args : Args) : bool :=
  isfile fs item
  && (mem (basename item) (ignore_files args)
      || mem (lower (splitext_ext (basename item))) (ignore_types args)).

(** Rule 5: the ignore-settings flag and a settings extension. *)
Definition rule_settings (item : string) (args : Args) : bool :=
  ignore_settings args
  && mem (lower (splitext_ext (basename item))) (SETTINGS_EXTENSIONS config).

(** Rule 6, once the root-relative path [rel] is known: split into path
    segments, it starts with the segments of one of the loaded
    patterns. *)
Definition rule_gitignore (rel : string) (gitignore_patterns : list string)
  : bool :=
  existsb (segment_prefix_match rel) gitignore_patterns.

(** The number of the first rule that matches, in the stated order,
    or [None] when the path is included. *)
Definition decision (item : string) (args : Args) (output_file_path : string)
    (gitignore_patterns : list string) : M (option nat) :=
  if rule_output_file item output_file_path then ret (Some 1)
  else if rule_excluded_dir item args then ret (Some 2)
  else if rule_include_dir item args then ret (Some 3)
  else if rule_ignored_file item args then ret (Some 4)
  else if rule_settings item args then ret (Some 5)
  else if use_gitignore args then
    match gitignore_patterns with
    | [] => ret None
    | _ =>
        rel <- os_relpath fs item (repo_path args) ;;
        ret (if rule_gitignore rel gitignore_patterns then Some 6 else None)
    end
  else ret None.


End Decision.

(** ** Reading the document back *)

(** The regular files that have a line in the tree section. *)
Definition tree_files (fs : FS) (evs : list event) : list string :=
  flat_map (fun ev => match ev with
                      | TreeEntry p _ _ _ => if isfile fs p then [p] else []
                      | _ => []
                      end) evs.

(** The files whose contents are dumped in the content section. *)
Definition dumped_files (evs : list event) : list string :=
  flat_map (fun ev => match ev with
                      | FileBegins p _ _ => [p]
                      | _ => []
                      end) evs.

(** Every path that has a line in the tree section. *)
Definition tree_paths (evs : list event) : list string :=
  flat_map (fun ev => match ev with
                      | TreeEntry p _ _ _ => [p]
                      | _ => []
                      end) evs.

(** The tree lines written with exactly the indentation [prefix]: the
    lines of the children of the directory being rendered with it. *)
Definition own_entries (prefix : string) (evs : list event) : list event :=
  filter (fun ev => match ev with
                    | TreeEntry _ pre _ _ => String.eqb pre prefix
                    | _ => false
                    end) evs.

(** The value of the filter at a path, within a run. *)
Definition is_ignored (fs : FS) (config : Config) (args : Args)
    (gitignore_patterns : list string) (item : string) : bool :=
  match fst (should_ignore fs config item args (output_file args)
               gitignore_patterns) with
  | Ok b => b
  | _ => false
  end.

(** The bodies of the two traversal loops, named so that lemmas can
    speak of one iteration; [self] stands for the recursive call. *)
Definition tree_item (fs : FS) (config : Config) (args : Args)
    (gitignore_patterns : list string)
    (self : string -> Args -> list string -> string -> bool -> bool -> M unit)
    (dir_path prefix : string) (num_items : nat) (entry : nat * string)
  : M unit :=
  let '(index, item) := entry in
  let item_path := OsPath.join dir_path item in
  ignored <- should_ignore fs config item_path args (output_file args)
               gitignore_patterns ;;
  if ignored then ret tt
  else
    let is_last_item := (index =? num_items - 1)%nat in
    let new_prefix := if is_last_item then corner else tee in
    let child_prefix := if is_last_item then blank4 else bar in
    write (TreeEntry item_path prefix new_prefix (OsPath.basename item)) ;;
    if isdir fs item_path then
      self item_path args gitignore_patterns (prefix ++ child_prefix)%string
        is_last_item false
    else ret tt.

Definition dump_item (fs : FS) (args : Args)
    (gitignore_patterns : list string)
    (self : string -> Args -> list string -> nat -> M unit)
    (dir_path : string) (depth : nat) (item : string) : M unit :=
  let item_path := OsPath.join dir_path item in
  relative_path <- os_relpath fs item_path (repo_path args) ;;
  if isdir fs item_path then
    self item_path args gitignore_patterns (depth + 1)
  else if isfile fs item_path then
    write (FileBegins item_path depth relative_path) ;;
    write_file_content fs item_path depth ;;
    write (FileEnds depth relative_path)
  else ret tt.

(** The tree line of the sibling at position [index] among [num_items]. *)
Definition tree_line (dir_path prefix : string) (num_items : nat)
    (entry : nat * string) : event :=
  TreeEntry (OsPath.join dir_path (snd entry)) prefix
    (if (fst entry =? num_items - 1)%nat then corner else tee)
    (OsPath.basename (snd entry)).

Definition new_prefix_of (ev : event) : string :=
  match ev with
  | TreeEntry _ _ new_prefix _ => new_prefix
  | _ => EmptyString
  end.

(** The writes of the tree pass and those of the content pass. *)
Definition is_tree_event (ev : event) : Prop :=
  match ev with
  | TreeRoot _ | TreeEntry _ _ _ _ => True
  | _ => False
  end.

Definition is_dump_event (ev : event) : Prop :=
  match ev with
  | FileBegins _ _ _ | ContentLine _ _ | ReadError _ _ | FileEnds _ _ => True
  | _ => False
  end.

(** The same filesystem with other file contents. *)
Definition with_read_file (fs : FS)
    (reads : string -> list string * option string) : FS :=
  {| getcwd := getcwd fs; kind := kind fs; listdir := listdir fs;
     read_file := reads |}.

(** The arguments of a run that filters on extensions only. *)
Definition only_types (repo out : string) (types : list string) : Args :=
  {| repo_path := repo; output_file := out; ignore_files := [];
     ignore_types := types; exclude_dir := []; ignore_settings := false;
     include_dir := None; use_gitignore := false |}.

(** ** Further readings of the document and of the arguments *)

(** The relative paths of the begin markers and of the end markers, in
    the order they are written. *)
Definition begin_paths (evs : list event) : list string :=
  flat_map (fun ev => match ev with
                      | FileBegins _ _ r => [r]
                      | _ => []
                      end) evs.

Definition end_paths (evs : list event) : list string :=
  flat_map (fun ev => match ev with
                      | FileEnds _ r => [r]
                      | _ => []
                      end) evs.

(** Each begin marker has its end marker. *)
Definition balanced (evs : list event) : Prop :=
  begin_paths evs = end_paths evs.

(** The namespace with other values for [--ignore-types]. *)
Definition with_ignore_types (args : Args) (types : list string) : Args :=
  {| repo_path := repo_path args; output_file := output_file args;
     ignore_files := ignore_files args; ignore_types := types;
     exclude_dir := exclude_dir args; ignore_settings := ignore_settings args;
     include_dir := include_dir args; use_gitignore := use_gitignore args |}.

(** The namespace with no ignored file names and extensions. *)
Definition without_ignore_lists (args : Args) : Args :=
  {| repo_path := repo_path args; output_file := output_file args;
     ignore_files := []; ignore_types := [];
     exclude_dir := exclude_dir args; ignore_settings := ignore_settings args;
     include_dir := include_dir args; use_gitignore := use_gitignore args |}.

(** The namespace with no excluded directory names. *)
Definition without_exclude_dir (args : Args) : Args :=
  {| repo_path := repo_path args; output_file := output_file args;
     ignore_files := ignore_files args; ignore_types := ignore_types args;
     exclude_dir := []; ignore_settings := ignore_settings args;
     include_dir := include_dir args; use_gitignore := use_gitignore args |}.

(** The indentation that a chain of ancestors adds: four blanks below an
    ancestor that was last in its listing, a bar and three blanks below
    one that was not. *)
Fixpoint indent_units (lasts : list bool) : string :=
  match lasts with
  | [] => EmptyString
  | b :: rest => ((if b then blank4 else bar) ++ indent_units rest)%string
  end.

(** [descends fs dir lasts p]: the path [p] is reached from the directory
    [dir] by going down through listed entries, one directory per
    element of [lasts]; each element tells whether that directory stood
    last in the sorted listing of its parent. *)
Inductive descends (fs : FS) : string -> list bool -> string -> Prop :=
| descends_child (dir : string) (listed : list string) (i : nat)
    (item : string) :
    listdir fs dir = inl listed ->
    nth_error (sort listed) i = Some item ->
    descends fs dir [] (OsPath.join dir item)
| descends_step (dir : string) (listed : list string) (i : nat)
    (item : string) (lasts : list bool) (p : string) :
    listdir fs dir = inl listed ->
    nth_error (sort listed) i = Some item ->
    isdir fs (OsPath.join dir item) = true ->
    descends fs (OsPath.join dir item) lasts p ->
    descends fs dir ((i =? length (sort listed) - 1)%nat :: lasts) p.

(** The order of [list.sort] on names. *)
Definition name_le (a b : string) : Prop := String.leb a b = true.

(** A string that [str.lstrip] leaves alone. *)
Definition no_leading_space (s : string) : Prop :=
  match s with
  | EmptyString => True
  | String a _ => PyStr.is_space a = false
  end.

(** ** A small repository *)
Module Example.

Definition lookup {A} (default : A) (table : list (string * A)) (p : string)
  : A :=
  match find (fun kv => String.eqb (fst kv) p) table with
  | Some kv => snd kv
  | None => default
  end.

Definition kinds : list (string * entry_kind) :=
  [ ("/r", KDir); ("/r/.gitignore", KFile);
    ("/r/a.txt", KFile); ("/r/b.png", KFile);
    ("/r/build", KDir); ("/r/build/o.txt", KFile);
    ("/r/builder.txt", KFile);
    ("/r/conf.json", KDir); ("/r/conf.json/k.txt", KFile);
    ("/r/docs", KDir); ("/r/docs/readme.md", KFile);
    ("/r/out.txt", KFile);
    ("/r/sub", KDir); ("/r/sub/c.txt", KFile); ("/r/sub/d.png", KFile);
    ("/r/subway.txt", KFile); ("/r/x.PNG", KFile) ].

Definition listings : list (string * (list string + string)) :=
  [ ("/r", inl ["sub"; "b.png"; "out.txt"; "a.txt"; "subway.txt";
                "builder.txt"; "build"; "conf.json"; "docs"; "x.PNG";
                ".gitignore"]);
    ("/r/build", inl ["o.txt"]);
    ("/r/conf.json", inl ["k.txt"]);
    ("/r/docs", inl ["readme.md"]);
    ("/r/sub", inl ["d.png"; "c.txt"]) ].

Definition contents : list (string * (list string * option string)) :=
  [ ("/r/a.txt", (["hello" ++ nl; "world"], None));
    ("/r/sub/c.txt", ([], Some "[Errno 13] Permission denied"));
    ("/r/.gitignore", (["# build output" ++ nl; "build" ++ nl], None)) ]%string.

Definition fs : FS :=
  {| getcwd := "/r";
     kind := lookup KMissing kinds;
     listdir := lookup (inr "[Errno 2] No such file or directory") listings;
     read_file := lookup ([], None) contents |}.

(** The same tree with every file unreadable. *)
Definition unreadable : FS :=
  with_read_file fs (fun _ => ([], Some "[Errno 13] Permission denied")).

Definition config : Config :=
  {| IMAGE_EXTENSIONS := [".png"]; VIDEO_EXTENSIONS := [".mp4"];
     AUDIO_EXTENSIONS := [".mp3"]; DOCUMENT_EXTENSIONS := [".pdf"];
     EXECUTABLE_EXTENSIONS := [".exe"]; SETTINGS_EXTENSIONS := [".json"];
     ADDITIONAL_IGNORE_TYPES := []; DEFAULT_OUTPUT_FILE := "output.txt" |}.

Definition args : Args :=
  {| repo_path := "/r"; output_file := "out.txt"; ignore_files := [];
     ignore_types := [".png"]; exclude_dir := []; ignore_settings := false;
     include_dir := None; use_gitignore := false |}.

Definition with_settings : Args :=
  {| repo_path := "/r"; output_file := "out.txt"; ignore_files := [];
     ignore_types := [".png"]; exclude_dir := []; ignore_settings := true;
     include_dir := None; use_gitignore := false |}.

Definition with_include (d : string) : Args :=
  {| repo_path := "/r"; output_file := "out.txt"; ignore_files := [];
     ignore_types := [".png"]; exclude_dir := []; ignore_settings := false;
     include_dir := Some d; use_gitignore := false |}.

Definition with_gitignore : Args :=
  {| repo_path := "/r"; output_file := "out.txt"; ignore_files := [];
     ignore_types := [".png"]; exclude_dir := []; ignore_settings := false;
     include_dir := None; use_gitignore := true |}.


(** How deep the directories nest below a path of the example. *)
Definition rank (p : string) : nat := if String.eqb p "/r" then 1 else 0.

(** What the run on the example repository writes. *)
Definition run_events : list event :=
  match output (main fs config 5 args) with
  | Some evs => evs
  | None => []
  end.

End Example.

(** ** Lemmas on the computations *)

Lemma bind_ret_l {A B} (a : A) (f : A -> M B) : bind (ret a) f = f a.
Proof. unfold bind, ret. destruct (f a) as [r w]. reflexivity. Qed.

Lemma bind_ok {A B} (m : M A) (f : A -> M B) (b : B) :
  fst (bind m f) = Ok b ->
  exists a, fst m = Ok a /\ fst (f a) = Ok b
            /\ snd (bind m f) = snd m ++ snd (f a).
Proof.
  unfold bind. destruct m as [[a | e |] w]; simpl; try discriminate.
  destruct (f a) as [r w'] eqn:E. simpl. intros ->.
  exists a. rewrite E. simpl. auto.
Qed.

Lemma for_each_ok {A} (body : A -> M unit) (l : list A) :
  fst (for_each l body) = Ok tt ->
  (forall x, In x l -> fst (body x) = Ok tt)
  /\ snd (for_each l body) = flat_map (fun x => snd (body x)) l.
Proof.
  induction l as [| x l IH]; simpl.
  - intros _. split; [intros ? [] | reflexivity].
  - intros H. apply bind_ok in H. destruct H as ([] & Hx & Hl & Hw).
    destruct (IH Hl) as [Hall Hout]. split.
    + intros y [<- | Hy]; auto.
    + rewrite Hw, Hout. reflexivity.
Qed.

Lemma filter_m_ok {A} (keep : A -> M bool) (l kept : list A) :
  fst (filter_m keep l) = Ok kept ->
  forall x, In x kept <-> In x l /\ fst (keep x) = Ok true.
Proof.
  revert kept. induction l as [| y l IH]; simpl; intros kept H.
  - injection H as <-. intros x. simpl. tauto.
  - apply bind_ok in H. destruct H as (k & Hk & H & _).
    apply bind_ok in H. destruct H as (rest & Hrest & H & _).
    simpl in H. injection H as <-. specialize (IH _ Hrest).
    intros x. destruct k; simpl; rewrite IH; split.
    + intros [<- | [? ?]]; auto.
    + intros [[<- | ?] ?]; auto.
    + intros [? ?]; auto.
    + intros [[<- | ?] Hx]; auto. rewrite Hk in Hx. discriminate.
Qed.

Lemma In_insert_sorted (x y : string) (l : list string) :
  In y (insert_sorted x l) <-> y = x \/ In y l.
Proof.
  induction l as [| z l IH]; simpl.
  - intuition.
  - destruct (String.leb x z); simpl; rewrite ?IH; intuition.
Qed.

Lemma In_sort (y : string) (l : list string) : In y (sort l) <-> In y l.
Proof.
  induction l as [| x l IH]; simpl; [tauto |].
  rewrite In_insert_sorted, IH. intuition.
Qed.

Lemma In_enumerate_from {A} (l : list A) (s i : nat) (x : A) :
  In (i, x) (combine (seq s (length l)) l) <-> nth_error l (i - s) = Some x /\ s <= i.
Proof.
  revert s. induction l as [| y l IH]; simpl; intros s.
  - split; [intros [] |]. intros [H _]. destruct (i - s); discriminate.
  - rewrite IH. split.
    + intros [H | [H Hle]].
      * injection H as <- <-. rewrite Nat.sub_diag. auto.
      * replace (i - s) with (S (i - S s)) by lia. simpl. split; [auto | lia].
    + intros [H Hle]. destruct (i - s) as [| k] eqn:E.
      * left. simpl in H. injection H as <-. f_equal. lia.
      * right. simpl in H. replace (i - S s) with k by lia. split; [auto | lia].
Qed.

Lemma In_enumerate {A} (l : list A) (i : nat) (x : A) :
  In (i, x) (enumerate l) <-> nth_error l i = Some x.
Proof.
  unfold enumerate. rewrite In_enumerate_from, Nat.sub_0_r.
  split; [tauto | split; [auto | lia]].
Qed.

Section FilterFacts.
Import PyStr OsPath.

Variable fs : FS.
Variable config : Config.

Lemma gitignore_loop_unfold (item : string) (args : Args) (pats : list string) :
  gitignore_loop fs item args pats =
  match pats with
  | [] => ret false
  | _ => rel <- os_relpath fs item (repo_path args) ;;
         ret (gitignore_match rel pats)
  end.
Proof.
  induction pats as [| pattern rest IH]; [reflexivity |].
  simpl. unfold os_relpath in *.
  destruct (relpath (getcwd fs) item (repo_path args)) as [rel |];
    [| reflexivity].
  rewrite !bind_ret_l in *. unfold gitignore_match. simpl.
  destruct (startswith_tuple rel (split sep pattern)); [reflexivity |].
  rewrite IH. destruct rest; reflexivity.
Qed.

(** The filter writes nothing. *)
Lemma should_ignore_silent (item : string) (args : Args) (out : string)
    (pats : list string) :
  snd (should_ignore fs config item args out pats) = [].
Proof.
  unfold should_ignore.
  repeat match goal with
         | |- context [if ?c then ret true else _] => destruct c; [reflexivity |]
         end.
  destruct (use_gitignore args); [| reflexivity].
  rewrite gitignore_loop_unfold. destruct pats; [reflexivity |].
  unfold os_relpath.
  destruct (relpath (getcwd fs) item (repo_path args)); reflexivity.
Qed.

Lemma should_ignore_value (item : string) (args : Args) (out : string)
    (pats : list string) (b : bool) :
  fst (should_ignore fs config item args out pats) = Ok b ->
  should_ignore fs config item args out pats = ret b.
Proof.
  intros H. generalize (should_ignore_silent item args out pats).
  destruct (should_ignore fs config item args out pats) as [r w].
  simpl in *. intros ->. subst r. reflexivity.
Qed.

End FilterFacts.

Lemma bind_In {A B} (m : M A) (f : A -> M B) (ev : event) :
  In ev (snd (bind m f)) ->
  In ev (snd m) \/ exists a, fst m = Ok a /\ In ev (snd (f a)).
Proof.
  unfold bind. destruct m as [[a | e |] w]; simpl; auto.
  destruct (f a) as [r w'] eqn:E. simpl. rewrite in_app_iff.
  intros [H | H]; [auto | right]. exists a. rewrite E. auto.
Qed.

Lemma for_each_In {A} (body : A -> M unit) (l : list A) (ev : event) :
  In ev (snd (for_each l body)) -> exists x, In x l /\ In ev (snd (body x)).
Proof.
  induction l as [| x l IH]; simpl; [intros [] |].
  intros H. apply bind_In in H. destruct H as [H | (_ & _ & H)].
  - exists x. auto.
  - destruct (IH H) as (y & Hy & Hev). exists y. auto.
Qed.

Lemma filter_m_silent {A} (keep : A -> M bool) (l : list A) :
  (forall x, snd (keep x) = []) -> snd (filter_m keep l) = [].
Proof.
  intros Hk. induction l as [| x l IH]; [reflexivity |].
  simpl. unfold bind. specialize (Hk x).
  destruct (keep x) as [[k | e |] w]; simpl in *; subst; auto.
  destruct (filter_m keep l) as [[rest | e |] w]; simpl in *; subst; auto.
Qed.

Lemma string_length_append (a b : string) :
  String.length (a ++ b) = String.length a + String.length b.
Proof. induction a as [| c a IH]; simpl; [reflexivity | now rewrite IH]. Qed.

Lemma tree_files_app (fs : FS) (a b : list event) :
  tree_files fs (a ++ b) = tree_files fs a ++ tree_files fs b.
Proof. apply flat_map_app. Qed.

Lemma dumped_files_app (a b : list event) :
  dumped_files (a ++ b) = dumped_files a ++ dumped_files b.
Proof. apply flat_map_app. Qed.

Lemma In_tree_files (fs : FS) (evs : list event) (p : string) :
  In p (tree_files fs evs) <->
  isfile fs p = true
  /\ exists prefix new_prefix name, In (TreeEntry p prefix new_prefix name) evs.
Proof.
  unfold tree_files. rewrite in_flat_map. split.
  - intros (ev & Hev & Hp). destruct ev; simpl in Hp; try contradiction.
    destruct (isfile fs item_path) eqn:E; simpl in Hp; [| contradiction].
    destruct Hp as [<- | []]. split; [assumption | eauto].
  - intros (Hf & pre & np & name & Hev). eexists. split; [exact Hev |].
    simpl. rewrite Hf. simpl. auto.
Qed.

Lemma In_dumped_files (evs : list event) (p : string) :
  In p (dumped_files evs) <->
  exists depth relative_path, In (FileBegins p depth relative_path) evs.
Proof.
  unfold dumped_files. rewrite in_flat_map. split.
  - intros (ev & Hev & Hp). destruct ev; simpl in Hp; try contradiction.
    destruct Hp as [<- | []]. eauto.
  - intros (d & r & Hev). eexists. split; [exact Hev |]. simpl. auto.
Qed.

Lemma In_tree_files_flat_map {A} (fs : FS) (f : A -> list event)
    (l : list A) (p : string) :
  In p (tree_files fs (flat_map f l)) <->
  exists x, In x l /\ In p (tree_files fs (f x)).
Proof.
  induction l as [| y l IH]; simpl.
  - split; [intros [] | intros (? & [] & _)].
  - rewrite tree_files_app, in_app_iff, IH. split.
    + intros [H | (x & Hx & H)]; eauto.
    + intros (x & [<- | Hx] & H); eauto.
Qed.

Lemma In_dumped_files_flat_map {A} (f : A -> list event) (l : list A)
    (p : string) :
  In p (dumped_files (flat_map f l)) <->
  exists x, In x l /\ In p (dumped_files (f x)).
Proof.
  induction l as [| y l IH]; simpl.
  - split; [intros [] | intros (? & [] & _)].
  - rewrite dumped_files_app, in_app_iff, IH. split.
    + intros [H | (x & Hx & H)]; eauto.
    + intros (x & [<- | Hx] & H); eauto.
Qed.

Section TraversalFacts.
Import PyStr OsPath.

Variable fs : FS.
Variable config : Config.
Variable args : Args.
Variable pats : list string.

Let ign (item : string) : M bool :=
  should_ignore fs config item args (output_file args) pats.

Lemma write_tree_unfold (n : nat) (dir prefix : string) (il ir : bool) :
  write_tree fs config (S n) dir args pats prefix il ir =
  ((if ir then write (TreeRoot (basename dir)) else ret tt) ;;
   listed <- os_listdir fs dir ;;
   for_each (enumerate (sort listed))
     (tree_item fs config args pats (write_tree fs config n) dir prefix
        (length (sort listed)))).
Proof. reflexivity. Qed.

Lemma dump_unfold (n : nat) (dir : string) (depth : nat) :
  write_file_contents_in_order fs config (S n) dir args pats depth =
  (listed <- os_listdir fs dir ;;
   kept <- filter_m (fun item => ignored <- ign (join dir item) ;;
                                 ret (negb ignored)) listed ;;
   for_each (sort kept)
     (dump_item fs args pats (write_file_contents_in_order fs config n)
        dir depth)).
Proof. reflexivity. Qed.

Lemma is_ignored_ret (item : string) (b : bool) :
  ign item = ret b -> is_ignored fs config args pats item = b.
Proof. unfold is_ignored, ign. intros ->. reflexivity. Qed.

(** One iteration of the tree loop: an ignored item writes nothing; an
    item that is kept writes its line and then the subtree below it. *)
Lemma tree_item_cases self (dir prefix : string) (num i : nat) (item : string) :
  (exists e, fst (ign (join dir item)) = Raise e
             /\ tree_item fs config args pats self dir prefix num (i, item)
                = (Raise e, []))
  \/ (ign (join dir item) = ret true
      /\ tree_item fs config args pats self dir prefix num (i, item) = ret tt)
  \/ (ign (join dir item) = ret false
      /\ tree_item fs config args pats self dir prefix num (i, item)
         = (write (tree_line dir prefix num (i, item)) ;;
            if isdir fs (join dir item) then
              self (join dir item) args pats
                (prefix ++ (if (i =? num - 1)%nat then blank4 else bar))%string
                (i =? num - 1)%nat false
            else ret tt)).
Proof.
  unfold tree_item. fold (ign (join dir item)).
  pose proof (should_ignore_silent fs config (join dir item) args
                (output_file args) pats) as Hs. fold (ign (join dir item)) in Hs.
  destruct (ign (join dir item)) as [[[] | e |] w] eqn:E; simpl in Hs; subst w.
  - right. left. split; reflexivity.
  - right. right. split; [reflexivity |]. exact (bind_ret_l false _).
  - left. exists e. split; reflexivity.
  - exfalso. revert E. unfold ign, should_ignore.
    repeat match goal with
           | |- context [if ?c then ret true else _] =>
               destruct c; [discriminate |]
           end.
    destruct (use_gitignore args); [| discriminate].
    rewrite gitignore_loop_unfold. destruct pats; [discriminate |].
    unfold os_relpath.
    destruct (relpath (getcwd fs) (join dir item) (repo_path args));
      discriminate.
Qed.

Lemma for_each_write {A} (f : A -> event) (l : list A) :
  for_each l (fun x => write (f x)) = (Ok tt, map f l).
Proof.
  induction l as [| x l IH]; [reflexivity |].
  simpl. rewrite IH. reflexivity.
Qed.

(** What [write_file_content] writes: the lines read, then the error
    line if the read failed; it never raises. *)
Lemma write_file_content_spec (file_path : string) (depth : nat) :
  write_file_content fs file_path depth =
  (Ok tt,
   map (ContentLine depth) (fst (read_file fs file_path))
   ++ match snd (read_file fs file_path) with
      | None => []
      | Some e => [ReadError depth e]
      end).
Proof.
  unfold write_file_content.
  destruct (read_file fs file_path) as [lines failure]. simpl.
  rewrite for_each_write. destruct failure; reflexivity.
Qed.

Lemma os_listdir_cases (dir : string) :
  (exists listed, listdir fs dir = inl listed /\ os_listdir fs dir = ret listed)
  \/ (exists e, os_listdir fs dir = (Raise e, [])).
Proof.
  unfold os_listdir. destruct (listdir fs dir) as [listed | e];
    [left; exists listed; split; reflexivity | right; exists e; reflexivity].
Qed.

Lemma os_relpath_cases (path start : string) :
  (exists rel, os_relpath fs path start = ret rel)
  \/ os_relpath fs path start = (Raise "no path specified", []).
Proof.
  unfold os_relpath. destruct (relpath (getcwd fs) path start) as [rel |];
    [left; exists rel; reflexivity | right; reflexivity].
Qed.

Lemma keep_true (item : string) :
  fst (ignored <- ign item ;; ret (negb ignored)) = Ok true ->
  ign item = ret false.
Proof.
  intros H. apply bind_ok in H. destruct H as (b & Hb & H & _).
  simpl in H. injection H as H. destruct b; [discriminate |].
  apply should_ignore_value. exact Hb.
Qed.

Lemma keep_silent (item : string) :
  snd (ignored <- ign item ;; ret (negb ignored)) = [].
Proof.
  unfold bind, ign.
  pose proof (should_ignore_silent fs config item args (output_file args) pats).
  destruct (should_ignore fs config item args (output_file args) pats)
    as [[b | e |] w]; simpl in *; subst; reflexivity.
Qed.

(** Every line of the tree is the line of a path the filter keeps, and
    is indented at least as far as the directory being rendered. *)
Lemma tree_entries_kept (n : nat) :
  forall (dir prefix : string) (il ir : bool) p pre np name,
    In (TreeEntry p pre np name)
       (snd (write_tree fs config n dir args pats prefix il ir)) ->
    ign p = ret false /\ String.length prefix <= String.length pre.
Proof.
  induction n as [| n IH]; intros dir prefix il ir p pre np name H.
  - destruct H.
  - rewrite write_tree_unfold in H.
    apply bind_In in H. destruct H as [H | (_ & _ & H)].
    { destruct ir; simpl in H; [destruct H as [H | []]; discriminate | destruct H]. }
    apply bind_In in H. destruct H as [H | (listed & _ & H)].
    { destruct (os_listdir_cases dir) as [(l & _ & E) | (e & E)];
        rewrite E in H; destruct H. }
    apply for_each_In in H. destruct H as ([i item] & _ & H).
    destruct (tree_item_cases (write_tree fs config n) dir prefix
                (length (sort listed)) i item)
      as [(e & _ & E) | [(_ & E) | (Hk & E)]]; rewrite E in H;
      try (destruct H; fail).
    apply bind_In in H. destruct H as [H | (_ & _ & H)].
    + destruct H as [H | []]. unfold tree_line in H. simpl in H.
      injection H as <- <- <- <-. split; [exact Hk | lia].
    + destruct (isdir fs (join dir item)); [| destruct H].
      apply IH in H. destruct H as [H1 H2]. split; [exact H1 |].
      rewrite string_length_append in H2. lia.
Qed.

(** Every file whose content is dumped is a regular file the filter
    keeps. *)
Lemma dump_begins_kept (n : nat) :
  forall (dir : string) (depth : nat) p d r,
    In (FileBegins p d r)
       (snd (write_file_contents_in_order fs config n dir args pats depth)) ->
    ign p = ret false /\ isfile fs p = true.
Proof.
  induction n as [| n IH]; intros dir depth p d r H.
  - destruct H.
  - rewrite dump_unfold in H.
    apply bind_In in H. destruct H as [H | (listed & _ & H)].
    { destruct (os_listdir_cases dir) as [(l & _ & E) | (e & E)];
        rewrite E in H; destruct H. }
    apply bind_In in H. destruct H as [H | (kept & Hkept & H)].
    { rewrite filter_m_silent in H by (intros x; apply keep_silent).
      destruct H. }
    apply for_each_In in H. destruct H as (item & Hitem & H).
    apply (proj1 (In_sort _ _)) in Hitem.
    apply (proj1 (filter_m_ok _ _ Hkept item)) in Hitem.
    destruct Hitem as [_ Hk].
    apply keep_true in Hk.
    unfold dump_item in H.
    apply bind_In in H. destruct H as [H | (rel & _ & H)].
    { destruct (os_relpath_cases (join dir item) (repo_path args))
        as [(rel & E) | E]; rewrite E in H; destruct H. }
    destruct (isdir fs (join dir item)); [apply IH in H; exact H |].
    destruct (isfile fs (join dir item)) eqn:Hf; [| destruct H].
    apply bind_In in H. destruct H as [H | (_ & _ & H)].
    { destruct H as [H | []]. injection H as <- _ _. auto. }
    apply bind_In in H. destruct H as [H | (_ & _ & H)].
    { rewrite write_file_content_spec in H. simpl in H.
      apply in_app_iff in H. destruct H as [H | H].
      - apply in_map_iff in H. destruct H as (? & ? & _). discriminate.
      - destruct (snd (read_file fs (join dir item)));
          [destruct H as [H | []]; discriminate | destruct H]. }
    destruct H as [H | []]. discriminate.
Qed.

End TraversalFacts.

Section PassesAgree.
Import PyStr OsPath.

Variable fs : FS.
Variable config : Config.
Variable args : Args.
Variable pats : list string.

Let ign (item : string) : M bool :=
  should_ignore fs config item args (output_file args) pats.

Lemma isdir_not_isfile (p : string) : isdir fs p = true -> isfile fs p = false.
Proof. unfold isdir, isfile. destruct (kind fs p); congruence. Qed.

Lemma tree_item_ok self (dir prefix : string) (num i : nat) (item : string) :
  fst (tree_item fs config args pats self dir prefix num (i, item)) = Ok tt ->
  (ign (join dir item) = ret true
   /\ snd (tree_item fs config args pats self dir prefix num (i, item)) = [])
  \/ (ign (join dir item) = ret false
      /\ snd (tree_item fs config args pats self dir prefix num (i, item))
         = tree_line dir prefix num (i, item)
           :: (if isdir fs (join dir item) then
                 snd (self (join dir item) args pats
                        (prefix ++ (if (i =? num - 1)%nat then blank4 else bar))%string
                        (i =? num - 1)%nat false)
               else [])
      /\ (isdir fs (join dir item) = true ->
          fst (self (join dir item) args pats
                 (prefix ++ (if (i =? num - 1)%nat then blank4 else bar))%string
                 (i =? num - 1)%nat false) = Ok tt)).
Proof.
  intros H.
  destruct (tree_item_cases fs config args pats self dir prefix num i item)
    as [(e & _ & E) | [(Hk & E) | (Hk & E)]]; rewrite E in *.
  - discriminate.
  - left. split; [exact Hk | reflexivity].
  - right. split; [exact Hk |].
    apply bind_ok in H. destruct H as ([] & _ & H & Hw).
    rewrite Hw. simpl. destruct (isdir fs (join dir item)).
    + split; [reflexivity | intros _; exact H].
    + split; [reflexivity | discriminate].
Qed.

Lemma dump_item_ok self (dir : string) (depth : nat) (item : string) :
  fst (dump_item fs args pats self dir depth item) = Ok tt ->
  exists rel,
    (isdir fs (join dir item) = true
     /\ fst (self (join dir item) args pats (depth + 1)) = Ok tt
     /\ snd (dump_item fs args pats self dir depth item)
        = snd (self (join dir item) args pats (depth + 1)))
    \/ (isdir fs (join dir item) = false /\ isfile fs (join dir item) = true
        /\ snd (dump_item fs args pats self dir depth item)
           = FileBegins (join dir item) depth rel
             :: snd (write_file_content fs (join dir item) depth)
             ++ [FileEnds depth rel])
    \/ (isdir fs (join dir item) = false /\ isfile fs (join dir item) = false
        /\ snd (dump_item fs args pats self dir depth item) = []).
Proof.
  unfold dump_item. intros H.
  destruct (os_relpath_cases fs (join dir item) (repo_path args))
    as [(rel & E) | E]; rewrite E in *; [| discriminate].
  rewrite bind_ret_l in *. exists rel.
  destruct (isdir fs (join dir item)).
  - left. auto.
  - right. destruct (isfile fs (join dir item)).
    + left. split; [reflexivity | split; [reflexivity |]].
      rewrite write_file_content_spec. reflexivity.
    + right. auto.
Qed.

Lemma dumped_files_content (file_path : string) (depth : nat) :
  dumped_files (snd (write_file_content fs file_path depth)) = [].
Proof.
  rewrite write_file_content_spec. simpl. rewrite dumped_files_app.
  replace (dumped_files (map (ContentLine depth) (fst (read_file fs file_path))))
    with (@nil string).
  - destruct (snd (read_file fs file_path)); reflexivity.
  - induction (fst (read_file fs file_path)); simpl; auto.
Qed.

(** When both passes over a directory complete, the regular files the
    tree lists are the files the dump begins. *)
Lemma passes_agree (n : nat) :
  forall (dir prefix : string) (il ir : bool) (depth : nat),
    fst (write_tree fs config n dir args pats prefix il ir) = Ok tt ->
    fst (write_file_contents_in_order fs config n dir args pats depth) = Ok tt ->
    forall p,
      In p (tree_files fs
              (snd (write_tree fs config n dir args pats prefix il ir)))
      <-> In p (dumped_files
                  (snd (write_file_contents_in_order fs config n dir args
                          pats depth))).
Proof.
  induction n as [| n IH]; intros dir prefix il ir depth HT HD p;
    [discriminate |].
  rewrite write_tree_unfold in *. rewrite dump_unfold in *.
  apply bind_ok in HT. destruct HT as ([] & _ & HT & ->).
  apply bind_ok in HT. destruct HT as (listed & HL & HT & ->).
  apply bind_ok in HD. destruct HD as (listed' & HL' & HD & ->).
  rewrite HL in HL'. injection HL' as <-.
  apply bind_ok in HD. destruct HD as (kept & HK & HD & ->).
  apply for_each_ok in HT. destruct HT as [HTall ->].
  apply for_each_ok in HD. destruct HD as [HDall ->].
  rewrite filter_m_silent by (intros x; apply keep_silent).
  destruct (os_listdir_cases fs dir) as [(l & _ & E) | (e & E)];
    rewrite E in *; [| discriminate]. simpl snd. clear E l HL.
  rewrite !tree_files_app, !in_app_iff. simpl app.
  assert (Hroot : ~ In p (tree_files fs
              (snd (if ir then write (TreeRoot (basename dir)) else ret tt)))).
  { destruct ir; simpl; tauto. }
  rewrite In_tree_files_flat_map, In_dumped_files_flat_map.
  split.
  - intros [H | [[] | ([i item] & Hin & H)]]; [contradiction |].
    destruct (tree_item_ok _ _ _ _ _ _ (HTall _ Hin))
      as [(_ & E) | (Hk & E & Hsub)]; rewrite E in H; [destruct H |].
    assert (Hitem : In item (sort kept)).
    { apply In_sort. apply (filter_m_ok _ _ HK). split.
      - apply (proj1 (In_enumerate _ _ _)), nth_error_In in Hin.
        exact (proj1 (In_sort _ _) Hin).
      - fold (ign (join dir item)). rewrite Hk. reflexivity. }
    exists item. split; [exact Hitem |].
    destruct (dump_item_ok _ _ _ _ (HDall _ Hitem))
      as (rel & [(Hd & Hok & E') | [(Hd & Hf & E') | (Hd & Hf & E')]]);
      rewrite E'; rewrite Hd in *.
    + change (tree_line dir prefix (length (sort listed)) (i, item)
              :: ?x) with ([tree_line dir prefix (length (sort listed)) (i, item)] ++ x) in H.
      rewrite tree_files_app, in_app_iff in H. destruct H as [H | H].
      * simpl in H. rewrite (isdir_not_isfile _ Hd) in H. destruct H.
      * apply (IH _ _ _ _ _ (Hsub eq_refl) Hok). exact H.
    + simpl in H. rewrite Hf in H. simpl in H.
      destruct H as [<- | []]. simpl. auto.
    + simpl in H. rewrite Hf in H. destruct H.
  - intros (item & Hitem & H). right. right.
    pose proof (proj1 (filter_m_ok _ _ HK item)
                  (proj1 (In_sort _ _) Hitem)) as [Hl Hk].
    apply keep_true in Hk.
    apply (proj2 (In_sort _ _)), In_nth_error in Hl. destruct Hl as [i Hi].
    apply (proj2 (In_enumerate _ _ _)) in Hi.
    exists (i, item). split; [exact Hi |].
    destruct (tree_item_ok _ _ _ _ _ _ (HTall _ Hi))
      as [(Hk' & _) | (_ & E & Hsub)].
    { unfold ign in Hk, Hk'. rewrite Hk in Hk'. discriminate. }
    rewrite E.
    change (tree_line dir prefix (length (sort listed)) (i, item)
            :: ?x) with ([tree_line dir prefix (length (sort listed)) (i, item)] ++ x).
    rewrite tree_files_app, in_app_iff.
    destruct (dump_item_ok _ _ _ _ (HDall _ Hitem))
      as (rel & [(Hd & Hok & E') | [(Hd & Hf & E') | (Hd & Hf & E')]]);
      rewrite E' in H; rewrite Hd.
    + right. apply (IH _ _ _ _ _ (Hsub Hd) Hok). exact H.
    + left. simpl. rewrite Hf. simpl.
      change (FileBegins (join dir item) depth rel :: ?x)
        with ([FileBegins (join dir item) depth rel] ++ x) in H.
      rewrite !dumped_files_app, dumped_files_content in H. simpl in H.
      destruct H as [<- | []]. auto.
    + destruct H.
Qed.

End PassesAgree.

(** ** The filter *)
Section FilterTheorems.
Import PyStr OsPath.

Lemma mem_true_iff (x : string) (l : list string) :
  mem x l = true <-> In x l.
Proof.
  unfold mem. rewrite existsb_exists. split.
  - intros (y & Hy & E). apply String.eqb_eq in E. subst. exact Hy.
  - intros H. exists x. split; [exact H | apply String.eqb_refl].
Qed.

Lemma split_nonempty_early (c : ascii) (s : string) : split c s <> [].
Proof.
  destruct s as [| a s]; simpl; [discriminate |].
  destruct (Ascii.eqb a c); [discriminate |].
  destruct (split c s); discriminate.
Qed.

Lemma mem_nonempty (x : string) (l : list string) :
  match l with [] => false | _ => true end && mem x l = mem x l.
Proof. destruct l; reflexivity. Qed.

Lemma split_head_startswith (c : ascii) (s p : string) (rest : list string) :
  split c s = p :: rest -> startswith s p = true.
Proof.
  revert p rest. induction s as [| a s IH]; intros p rest H.
  - injection H as <- _. reflexivity.
  - simpl in H. destruct (Ascii.eqb a c).
    + injection H as <- _. reflexivity.
    + destruct (split c s) as [| piece others] eqn:E.
      * injection H as <- _. simpl. rewrite Ascii.eqb_refl.
        destruct s; reflexivity.
      * injection H as <- _. simpl. rewrite Ascii.eqb_refl.
        apply (IH piece others eq_refl).
Qed.

(** A path that starts with the segments of a pattern starts with the
    characters of its first segment: what rule 6 catches, the pattern
    loop of the code catches too. *)
Lemma rule_gitignore_is_matched (rel : string) (pats : list string) :
  rule_gitignore rel pats = true -> gitignore_match rel pats = true.
Proof.
  unfold rule_gitignore, gitignore_match. rewrite !existsb_exists.
  intros (pattern & Hin & H). exists pattern. split; [exact Hin |].
  unfold segment_prefix_match in H. unfold startswith_tuple.
  destruct (split sep pattern) as [| q qs] eqn:Eq;
    [exfalso; exact (split_nonempty_early sep pattern Eq) |].
  destruct (split sep rel) as [| r rs] eqn:Er; [discriminate |].
  simpl in H. apply andb_true_iff in H. destruct H as [H _].
  apply String.eqb_eq in H. subst r. simpl.
  rewrite (split_head_startswith _ _ Er). reflexivity.
Qed.

(** Whatever the decision order of the specification ignores, at
    whichever rule, [should_ignore] ignores. *)
Lemma decision_ignored_is_ignored (fs : FS) (config : Config)
    (item : string) (args : Args) (output_file_path : string)
    (gitignore_patterns : list string) (k : nat) :
  decision fs config item args output_file_path gitignore_patterns
  = ret (Some k) ->
  should_ignore fs config item args output_file_path gitignore_patterns
  = ret true.
Proof.
  unfold should_ignore, decision, rule_output_file, rule_excluded_dir,
    rule_include_dir, rule_ignored_file, rule_settings, os_abspath.
  destruct (String.eqb (abspath (getcwd fs) item)
              (abspath (getcwd fs) output_file_path)); [reflexivity |].
  rewrite <- andb_assoc, mem_nonempty.
  destruct (isdir fs item && mem (basename item) (exclude_dir args));
    [reflexivity |].
  destruct (match include_dir args with
            | Some d => truthy d
                        && negb (startswith (abspath (getcwd fs) item)
                                   (abspath (getcwd fs) d))
            | None => false
            end); [reflexivity |].
  destruct (isfile fs item
            && (mem (basename item) (ignore_files args)
                || mem (lower (splitext_ext (basename item)))
                     (ignore_types args))); [reflexivity |].
  destruct (ignore_settings args
            && mem (lower (splitext_ext (basename item)))
                 (SETTINGS_EXTENSIONS config)); [reflexivity |].
  destruct (use_gitignore args); [| discriminate].
  rewrite gitignore_loop_unfold.
  destruct gitignore_patterns as [| pattern rest]; [discriminate |].
  unfold os_relpath.
  destruct (relpath (getcwd fs) item (repo_path args)) as [rel |];
    [| discriminate].
  rewrite !bind_ret_l.
  destruct (rule_gitignore rel (pattern :: rest)) eqn:E; [| discriminate].
  intros _. rewrite (rule_gitignore_is_matched _ _ E). reflexivity.
Qed.

(** C4, at an input where the code and the claim part.  The decision
    order of the specification, with rule 6 a test on path segments,
    includes [builder.txt] under the pattern [build] and includes
    [a.txt] under the pattern [build/]: no rule matches.  [should_ignore]
    ignores both, at its pattern loop, which tries the pieces of a
    pattern as prefixes of the characters of the root-relative path.
    Where rule 6 does match, as for [build/o.txt], the two agree. *)
Theorem first_match_order_breaks_at_gitignore_rule :
  decision Example.fs Example.config "/r/builder.txt"
    Example.with_gitignore "out.txt" ["build"] = ret None
  /\ should_ignore Example.fs Example.config "/r/builder.txt"
       Example.with_gitignore "out.txt" ["build"] = ret true
  /\ decision Example.fs Example.config "/r/a.txt"
       Example.with_gitignore "out.txt" ["build/"] = ret None
  /\ should_ignore Example.fs Example.config "/r/a.txt"
       Example.with_gitignore "out.txt" ["build/"] = ret true
  /\ decision Example.fs Example.config "/r/build/o.txt"
       Example.with_gitignore "out.txt" ["build"] = ret (Some 6)
  /\ should_ignore Example.fs Example.config "/r/build/o.txt"
       Example.with_gitignore "out.txt" ["build"] = ret true.
Proof. repeat split; vm_compute; reflexivity. Qed.

(** C9.  The answer of [should_ignore] is a function of the path, the
    arguments, the patterns and the settings extensions, read against
    the working directory and the kind of entry found at the path: two
    evaluations in worlds that agree on these two give the same answer,
    whatever the directory listings, the file contents and the text
    written so far, and an evaluation writes nothing. *)
Theorem should_ignore_deterministic (fs1 fs2 : FS) (config : Config)
    (item : string) (args : Args) (output_file_path : string)
    (gitignore_patterns : list string) :
  getcwd fs1 = getcwd fs2 ->
  kind fs1 item = kind fs2 item ->
  should_ignore fs1 config item args output_file_path gitignore_patterns
  = should_ignore fs2 config item args output_file_path gitignore_patterns
  /\ snd (should_ignore fs1 config item args output_file_path
            gitignore_patterns) = [].
Proof.
  intros Hcwd Hkind. split; [| apply should_ignore_silent].
  unfold should_ignore, os_abspath, isdir, isfile.
  rewrite Hcwd, Hkind.
  replace (gitignore_loop fs1 item args gitignore_patterns)
    with (gitignore_loop fs2 item args gitignore_patterns); [reflexivity |].
  rewrite !gitignore_loop_unfold. unfold os_relpath. rewrite Hcwd.
  reflexivity.
Qed.

Lemma should_ignore_deterministic_witness :
  should_ignore Example.fs Example.config "/r/sub" Example.args "out.txt" []
  = should_ignore Example.unreadable Example.config "/r/sub" Example.args
      "out.txt" []
  /\ snd (should_ignore Example.fs Example.config "/r/sub" Example.args
            "out.txt" []) = [].
Proof.
  apply (should_ignore_deterministic Example.fs Example.unreadable);
    reflexivity.
Defined.

Lemma should_ignore_settings (fs : FS) (config : Config) (item : string)
    (args : Args) (out : string) (pats : list string) :
  ignore_settings args = true ->
  mem (lower (splitext_ext (basename item))) (SETTINGS_EXTENSIONS config) = true ->
  should_ignore fs config item args out pats = ret true.
Proof.
  intros Hflag Hext. unfold should_ignore.
  repeat match goal with
         | |- context [if ?c then ret true else _] =>
             destruct c eqn:?; [reflexivity |]
         end.
  rewrite Hflag, Hext in *. discriminate.
Qed.

(** C10.  With the ignore-settings flag set, a path whose extension is a
    settings extension is ignored whatever is found at the path, a
    directory as well as a file: the tree loop writes no line for it and
    does not descend into it, and the dump drops it from the siblings it
    iterates over. *)
Theorem settings_rule_covers_directories (fs : FS) (config : Config)
    (item : string) (args : Args) (gitignore_patterns : list string) :
  ignore_settings args = true ->
  mem (lower (splitext_ext (basename item))) (SETTINGS_EXTENSIONS config) = true ->
  (forall out,
      should_ignore fs config item args out gitignore_patterns = ret true)
  /\ (forall self dir prefix num i name,
         join dir name = item ->
         tree_item fs config args gitignore_patterns self dir prefix num
           (i, name) = ret tt)
  /\ (forall dir name listed kept,
         join dir name = item ->
         fst (filter_m
                (fun it =>
                   ignored <- should_ignore fs config (join dir it) args
                                (output_file args) gitignore_patterns ;;
                   ret (negb ignored)) listed) = Ok kept ->
         ~ In name kept).
Proof.
  intros Hflag Hext.
  assert (Hig : forall out,
             should_ignore fs config item args out gitignore_patterns = ret true)
    by (intros out; apply should_ignore_settings; assumption).
  split; [exact Hig | split].
  - intros self dir prefix num i name <-. unfold tree_item.
    rewrite Hig. reflexivity.
  - intros dir name listed kept <- Hk Hin.
    apply (filter_m_ok _ _ Hk) in Hin. destruct Hin as [_ Hin].
    rewrite Hig in Hin. discriminate.
Qed.

Lemma settings_rule_covers_directories_witness :
  isdir Example.fs "/r/conf.json" = true
  /\ should_ignore Example.fs Example.config "/r/conf.json"
       Example.with_settings "out.txt" [] = ret true.
Proof.
  split; [reflexivity |].
  apply (settings_rule_covers_directories Example.fs Example.config
           "/r/conf.json" Example.with_settings []); reflexivity.
Defined.

Lemma lower_char_idempotent (a : ascii) :
  lower_char (lower_char a) = lower_char a.
Proof. destruct a as [[] [] [] [] [] [] [] []]; reflexivity. Qed.

Lemma lower_idempotent (s : string) : lower (lower s) = lower s.
Proof.
  induction s as [| a s IH]; simpl; [reflexivity |].
  now rewrite lower_char_idempotent, IH.
Qed.

Lemma should_ignore_only_types (fs : FS) (config : Config)
    (item repo out : string) (types : list string) :
  isfile fs item = true ->
  String.eqb (os_abspath fs item) (os_abspath fs out) = false ->
  should_ignore fs config item (only_types repo out types) out []
  = ret (mem (lower (splitext_ext (basename item))) types).
Proof.
  intros Hf Hout. unfold should_ignore. rewrite Hout, Hf. simpl.
  rewrite andb_false_r. simpl.
  destruct (mem (lower (splitext_ext (basename item))) types); reflexivity.
Qed.

(** C8, as the code has it.  For a regular file that only the extension
    rule can catch, [should_ignore] looks the lowercased extension of the
    file up among the ignored extensions as they are written.  Hence two
    files whose extensions differ only in letter case get the same
    answer; a set of lowercase entries is matched without regard to
    case; an entry with an uppercase letter matches no file; and a file
    without extension matches only an empty entry. *)
Theorem extension_match_lowercases_file_side (fs : FS) (config : Config)
    (item repo out : string) (types : list string) :
  isfile fs item = true ->
  String.eqb (os_abspath fs item) (os_abspath fs out) = false ->
  let ext := splitext_ext (basename item) in
  should_ignore fs config item (only_types repo out types) out []
  = ret (mem (lower ext) types)
  /\ ((forall e, In e types -> lower e = e) ->
      (mem (lower ext) types = true <->
       exists e, In e types /\ lower e = lower ext))
  /\ (forall e, In e types -> lower e <> e ->
                String.eqb (lower ext) e = false)
  /\ (ext = "" -> (mem (lower ext) types = true <-> In "" types)).
Proof.
  intros Hf Hout ext. split; [apply should_ignore_only_types; assumption |].
  split; [| split].
  - intros Hlow. rewrite mem_true_iff. split.
    + intros H. exists (lower ext). split; [exact H | apply lower_idempotent].
    + intros (e & He & E). rewrite <- E, (Hlow e He). exact He.
  - intros e _ Hne. apply String.eqb_neq. intros E. apply Hne.
    rewrite <- E. apply lower_idempotent.
  - intros ->. simpl. apply mem_true_iff.
Qed.

Lemma extension_match_lowercases_file_side_witness :
  should_ignore Example.fs Example.config "/r/x.PNG"
    (only_types "/r" "out.txt" [".png"]) "out.txt" [] = ret true.
Proof.
  apply (extension_match_lowercases_file_side Example.fs Example.config
           "/r/x.PNG" "/r" "out.txt" [".png"]); reflexivity.
Defined.

(** C8 as stated fails: with the entry [.PNG] in the ignored extensions,
    the file [x.PNG] is kept, although its extension is that very entry. *)
Lemma extension_match_not_case_insensitive :
  ~ (should_ignore Example.fs Example.config "/r/x.PNG"
       (only_types "/r" "out.txt" [".PNG"]) "out.txt" [] = ret true
     <-> exists e, In e [".PNG"]
                   /\ lower e = lower (splitext_ext (basename "/r/x.PNG"))).
Proof.
  intros [_ H].
  assert (E : should_ignore Example.fs Example.config "/r/x.PNG"
                (only_types "/r" "out.txt" [".PNG"]) "out.txt" [] = ret true).
  { apply H. exists ".PNG". split; [left; reflexivity | reflexivity]. }
  vm_compute in E. discriminate.
Qed.

(** C2, at inputs where the code and the claim part.  [should_ignore]
    hands the pieces of the pattern to [str.startswith] as alternatives,
    each tried as a prefix of the characters of the root-relative path:
    the pattern [build] ignores [builder.txt], the pattern [docs/build]
    ignores [docs/readme.md], and the pattern [build/], whose last piece
    is empty, ignores every path; none of these paths starts with the
    segments of the pattern.  A run on the example, whose [.gitignore]
    holds the line [build], leaves [builder.txt] out of both sections. *)
Theorem gitignore_rule_tests_characters :
  should_ignore Example.fs Example.config "/r/builder.txt"
    Example.with_gitignore "out.txt" ["build"] = ret true
  /\ relpath "/r" "/r/builder.txt" "/r" = Some "builder.txt"
  /\ segment_prefix_match "builder.txt" "build" = false
  /\ should_ignore Example.fs Example.config "/r/docs/readme.md"
       Example.with_gitignore "out.txt" ["docs/build"] = ret true
  /\ segment_prefix_match "docs/readme.md" "docs/build" = false
  /\ should_ignore Example.fs Example.config "/r/a.txt"
       Example.with_gitignore "out.txt" ["build/"] = ret true
  /\ segment_prefix_match "a.txt" "build/" = false
  /\ exists evs,
       load_gitignore_patterns Example.fs "/r" = ret ["build"]
       /\ output (main Example.fs Example.config 3 Example.with_gitignore)
          = Some evs
       /\ ~ In "/r/builder.txt" (tree_paths evs)
       /\ ~ In "/r/builder.txt" (dumped_files evs).
Proof.
  repeat (split; [vm_compute; reflexivity |]).
  eexists. split; [vm_compute; reflexivity |].
  split; [vm_compute; reflexivity |].
  split; vm_compute; intuition discriminate.
Qed.

(** The part of C5 that holds: with an include-directory configured, a
    path whose absolute form does not start, character by character,
    with that of the include-directory is ignored. *)
Lemma include_rule_ignores (fs : FS) (config : Config) (item d : string)
    (args : Args) (out : string) (pats : list string) :
  include_dir args = Some d ->
  truthy d = true ->
  startswith (os_abspath fs item) (os_abspath fs d) = false ->
  should_ignore fs config item args out pats = ret true.
Proof.
  intros Hd Ht Hs. unfold should_ignore.
  repeat match goal with
         | |- context [if ?c then ret true else _] =>
             destruct c eqn:?; [reflexivity |]
         end.
  rewrite Hd, Ht, Hs in *. discriminate.
Qed.

(** C5, at an input where the code and the claim part.  With
    [--include-dir sub], the file [subway.txt] beside [sub] is kept,
    since [/r/subway.txt] starts with the characters of [/r/sub]: it is
    not in the subtree of [sub], yet it has a line in the tree and its
    content is dumped. *)
Theorem include_rule_tests_characters :
  in_subtree "/r" "/r/subway.txt" "sub" = false
  /\ should_ignore Example.fs Example.config "/r/subway.txt"
       (Example.with_include "sub") "out.txt" [] = ret false
  /\ exists evs,
       output (main Example.fs Example.config 3 (Example.with_include "sub"))
       = Some evs
       /\ In "/r/subway.txt" (tree_paths evs)
       /\ In "/r/subway.txt" (dumped_files evs).
Proof.
  split; [reflexivity | split; [reflexivity |]].
  eexists. split; [vm_compute; reflexivity |].
  split; vm_compute; tauto.
Qed.

End FilterTheorems.

(** ** The tree renderer *)
Section TreeTheorems.
Import PyStr OsPath.

Variable fs : FS.
Variable config : Config.
Variable args : Args.
Variable pats : list string.

Lemma own_entries_app (prefix : string) (a b : list event) :
  own_entries prefix (a ++ b) = own_entries prefix a ++ own_entries prefix b.
Proof. apply filter_app. Qed.

Lemma eqb_length_neq (a b : string) :
  String.length a <> String.length b -> String.eqb a b = false.
Proof. intros H. apply String.eqb_neq. intros ->. now apply H. Qed.

Lemma own_entries_nil (prefix : string) (evs : list event) :
  (forall p pre np name,
      In (TreeEntry p pre np name) evs ->
      String.length prefix < String.length pre) ->
  own_entries prefix evs = [].
Proof.
  induction evs as [| ev evs IH]; intros Hall; [reflexivity |].
  simpl. rewrite IH by (intros p pre np name H; eapply Hall; right; exact H).
  destruct ev; try reflexivity.
  rewrite eqb_length_neq; [reflexivity |].
  specialize (Hall _ _ _ _ (or_introl eq_refl)). lia.
Qed.

(** The lines of a subtree are indented further than those of the
    directory it hangs from. *)
Lemma own_entries_subtree (n : nat) (dir prefix child : string) (il ir : bool) :
  0 < String.length child ->
  own_entries prefix
    (snd (write_tree fs config n dir args pats (prefix ++ child) il ir)) = [].
Proof.
  intros Hc. apply own_entries_nil. intros p pre np name H.
  apply tree_entries_kept in H. destruct H as [_ Hlen].
  rewrite string_length_append in Hlen. lia.
Qed.

Lemma own_entries_tree_item (n : nat) (dir prefix : string) (num i : nat)
    (item : string) :
  fst (tree_item fs config args pats (write_tree fs config n) dir prefix num
         (i, item)) = Ok tt ->
  own_entries prefix
    (snd (tree_item fs config args pats (write_tree fs config n) dir prefix
            num (i, item)))
  = if is_ignored fs config args pats (join dir item) then []
    else [tree_line dir prefix num (i, item)].
Proof.
  intros H.
  destruct (tree_item_ok fs config args pats _ _ _ _ _ _ H)
    as [(Hk & E) | (Hk & E & _)]; rewrite E;
    rewrite (is_ignored_ret fs config args pats _ Hk); [reflexivity |].
  simpl. rewrite String.eqb_refl. f_equal.
  destruct (isdir fs (join dir item)); [| reflexivity].
  apply own_entries_subtree.
  destruct (i =? num - 1)%nat; simpl; lia.
Qed.

Lemma own_entries_loop (n : nat) (dir prefix : string) (num : nat)
    (l : list (nat * string)) :
  (forall x, In x l ->
             fst (tree_item fs config args pats (write_tree fs config n) dir
                    prefix num x) = Ok tt) ->
  own_entries prefix
    (flat_map (fun x => snd (tree_item fs config args pats
                               (write_tree fs config n) dir prefix num x)) l)
  = map (tree_line dir prefix num)
      (filter (fun x => negb (is_ignored fs config args pats
                                (join dir (snd x)))) l).
Proof.
  induction l as [| [i item] l IH]; intros Hall; [reflexivity |].
  cbn [flat_map].
  rewrite own_entries_app, IH by (intros; apply Hall; right; assumption).
  rewrite own_entries_tree_item by (apply Hall; left; reflexivity).
  cbn [filter snd].
  destruct (is_ignored fs config args pats (join dir item)); reflexivity.
Qed.

(** C3.  The lines written for the children of a directory are those of
    the children the filter keeps, and the branch glyph of each is the
    corner exactly when its index in the whole sorted listing, ignored
    siblings included, is the last one.  So when the last sibling of the
    listing is ignored, every line of the directory, the last visible one
    too, carries the tee; and no line is ever written for an ignored
    path. *)
Theorem tree_glyph_follows_unfiltered_index (n : nat) (dir prefix : string)
    (il ir : bool) (listed : list string) :
  listdir fs dir = inl listed ->
  fst (write_tree fs config (S n) dir args pats prefix il ir) = Ok tt ->
  let items := sort listed in
  let written := snd (write_tree fs config (S n) dir args pats prefix il ir) in
  own_entries prefix written
  = map (tree_line dir prefix (length items))
      (filter (fun x => negb (is_ignored fs config args pats (join dir (snd x))))
         (enumerate items))
  /\ (forall last_item,
         nth_error items (length items - 1) = Some last_item ->
         is_ignored fs config args pats (join dir last_item) = true ->
         forall ev, In ev (own_entries prefix written) ->
                    new_prefix_of ev = tee)
  /\ (forall p pre np name,
         In (TreeEntry p pre np name) written ->
         is_ignored fs config args pats p = false).
Proof.
  intros HL HT items written.
  assert (Hown : own_entries prefix written
                 = map (tree_line dir prefix (length items))
                     (filter (fun x => negb (is_ignored fs config args pats
                                               (join dir (snd x))))
                        (enumerate items))).
  { subst written. rewrite write_tree_unfold in *.
    apply bind_ok in HT. destruct HT as ([] & _ & HT & ->).
    apply bind_ok in HT. destruct HT as (listed' & HL' & HT & ->).
    unfold os_listdir in *. rewrite HL in *. injection HL' as <-.
    apply for_each_ok in HT. destruct HT as [HTall ->].
    rewrite !own_entries_app.
    transitivity
      (own_entries prefix
         (flat_map (fun x => snd (tree_item fs config args pats
                                    (write_tree fs config n) dir prefix
                                    (length (sort listed)) x))
            (enumerate (sort listed)))).
    - destruct ir; reflexivity.
    - apply own_entries_loop. exact HTall. }
  split; [exact Hown | split].
  - intros last_item Hlast Hig ev Hev. rewrite Hown in Hev.
    apply in_map_iff in Hev. destruct Hev as ([i item] & <- & Hin).
    apply filter_In in Hin. destruct Hin as [Hin Hvis]. simpl in Hvis.
    apply (proj1 (In_enumerate _ _ _)) in Hin.
    unfold tree_line. simpl.
    destruct (i =? length items - 1)%nat eqn:E; [| reflexivity].
    apply Nat.eqb_eq in E. subst i. rewrite Hin in Hlast.
    injection Hlast as ->. rewrite Hig in Hvis. discriminate.
  - intros p pre np name Hin.
    apply tree_entries_kept in Hin. destruct Hin as [Hk _].
    apply (is_ignored_ret fs config args pats _ Hk).
Qed.

End TreeTheorems.

Lemma tree_glyph_follows_unfiltered_index_witness :
  own_entries ""
    (snd (write_tree Example.fs Example.config 1 "/r/sub" Example.args [] ""
            true false))
  = [TreeEntry "/r/sub/c.txt" "" tee "c.txt"].
Proof.
  destruct (tree_glyph_follows_unfiltered_index Example.fs Example.config
              Example.args [] 0 "/r/sub" "" true false
              (listed := ["d.png"; "c.txt"]) eq_refl eq_refl) as [H _].
  rewrite H. reflexivity.
Defined.

(** ** The content dumper and the whole run *)
Section RunTheorems.
Import PyStr OsPath.

Lemma fst_bind {A B} (m : M A) (f : A -> M B) :
  fst (bind m f) = match fst m with
                   | Ok a => fst (f a)
                   | Raise e => Raise e
                   | Limit => Limit
                   end.
Proof.
  unfold bind. destruct m as [[a | e |] w]; simpl; try reflexivity.
  destruct (f a); reflexivity.
Qed.


(** One turn of the dump loop at a file whose read fails: the markers
    around the lines read and the error line, then the rest of the
    loop. *)
Lemma dump_loop_read_error (fs : FS) (args : Args)
    (pats : list string)
    (self : string -> Args -> list string -> nat -> M unit)
    (dir : string) (depth : nat) (item : string) (rest : list string)
    (lines : list string) (e rel : string) :
  isdir fs (join dir item) = false ->
  isfile fs (join dir item) = true ->
  relpath (getcwd fs) (join dir item) (repo_path args) = Some rel ->
  read_file fs (join dir item) = (lines, Some e) ->
  for_each (item :: rest) (dump_item fs args pats self dir depth)
  = (fst (for_each rest (dump_item fs args pats self dir depth)),
     FileBegins (join dir item) depth rel
     :: map (ContentLine depth) lines
     ++ [ReadError depth e; FileEnds depth rel]
     ++ snd (for_each rest (dump_item fs args pats self dir depth))).
Proof.
  intros Hd Hf Hrel Hread.
  assert (Hw : write_file_content fs (join dir item) depth
               = (Ok tt, map (ContentLine depth) lines ++ [ReadError depth e])).
  { rewrite write_file_content_spec, Hread. reflexivity. }
  cbn [for_each]. unfold dump_item at 1. unfold os_relpath.
  rewrite Hrel, bind_ret_l, Hd, Hf, Hw.
  destruct (for_each rest (dump_item fs args pats self dir depth))
    as [r w]. unfold bind, write. simpl.
  rewrite <- !app_assoc. destruct r; reflexivity.
Qed.

Lemma for_each_app_ok {A} (body : A -> M unit) (l1 l2 : list A) :
  (forall x, In x l1 -> fst (body x) = Ok tt) ->
  for_each (l1 ++ l2) body
  = (fst (for_each l2 body),
     flat_map (fun x => snd (body x)) l1 ++ snd (for_each l2 body)).
Proof.
  induction l1 as [| x l1 IH]; intros H.
  - simpl. destruct (for_each l2 body). reflexivity.
  - cbn [app for_each flat_map]. rewrite IH by (intros; apply H; right; assumption).
    pose proof (H x (or_introl eq_refl)) as Hx.
    unfold bind. destruct (body x) as [r w]. simpl in Hx. subst r.
    simpl. now rewrite app_assoc.
Qed.

(** C6.  When, in the dump of a directory, the loop over the kept and
    sorted siblings comes to a regular file whose read fails with the
    error [e] after [lines] were read (none if the file cannot be
    opened), [write_file_content] writes those lines and then the
    description of the error, indented as the content is, and returns
    normally; [write_file_contents_in_order] writes the end marker of
    the file and goes on with the siblings that follow, whose outcome
    alone decides the outcome of the dump of the directory. *)
Theorem read_error_is_written_and_dump_continues (fs : FS) (config : Config)
    (args : Args) (pats : list string) (n : nat) (dir : string) (depth : nat)
    (listed kept done : list string) (item : string) (rest : list string)
    (lines : list string) (e rel : string) :
  listdir fs dir = inl listed ->
  fst (filter_m
         (fun it =>
            ignored <- should_ignore fs config (join dir it) args
                         (output_file args) pats ;;
            ret (negb ignored)) listed) = Ok kept ->
  sort kept = done ++ item :: rest ->
  (forall x, In x done ->
     fst (dump_item fs args pats (write_file_contents_in_order fs config n)
            dir depth x) = Ok tt) ->
  isdir fs (join dir item) = false ->
  isfile fs (join dir item) = true ->
  relpath (getcwd fs) (join dir item) (repo_path args) = Some rel ->
  read_file fs (join dir item) = (lines, Some e) ->
  write_file_content fs (join dir item) depth
  = (Ok tt, map (ContentLine depth) lines ++ [ReadError depth e])
  /\ render (ReadError depth e)
     = (indentation depth ++ "Error reading file: " ++ e ++ nl)%string
  /\ (forall line,
         render (ContentLine depth line) = (indentation depth ++ line)%string)
  /\ write_file_contents_in_order fs config (S n) dir args pats depth
     = (fst (for_each rest
               (dump_item fs args pats
                  (write_file_contents_in_order fs config n) dir depth)),
        flat_map
          (fun x => snd (dump_item fs args pats
                           (write_file_contents_in_order fs config n)
                           dir depth x)) done
        ++ FileBegins (join dir item) depth rel
           :: map (ContentLine depth) lines
           ++ [ReadError depth e; FileEnds depth rel]
           ++ snd (for_each rest
                     (dump_item fs args pats
                        (write_file_contents_in_order fs config n)
                        dir depth)))
  /\ (fst (for_each rest
             (dump_item fs args pats
                (write_file_contents_in_order fs config n) dir depth)) = Ok tt ->
      fst (write_file_contents_in_order fs config (S n) dir args pats depth)
      = Ok tt).
Proof.
  intros HL HK Hsort Hdone Hd Hf Hrel Hread.
  assert (Hw : write_file_content fs (join dir item) depth
               = (Ok tt, map (ContentLine depth) lines ++ [ReadError depth e])).
  { rewrite write_file_content_spec, Hread. reflexivity. }
  assert (Hrun : write_file_contents_in_order fs config (S n) dir args pats depth
     = (fst (for_each rest
               (dump_item fs args pats
                  (write_file_contents_in_order fs config n) dir depth)),
        flat_map
          (fun x => snd (dump_item fs args pats
                           (write_file_contents_in_order fs config n)
                           dir depth x)) done
        ++ FileBegins (join dir item) depth rel
           :: map (ContentLine depth) lines
           ++ [ReadError depth e; FileEnds depth rel]
           ++ snd (for_each rest
                     (dump_item fs args pats
                        (write_file_contents_in_order fs config n)
                        dir depth)))).
  { rewrite dump_unfold. unfold os_listdir. rewrite HL, bind_ret_l.
    assert (HK' : filter_m
                    (fun it =>
                       ignored <- should_ignore fs config (join dir it) args
                                    (output_file args) pats ;;
                       ret (negb ignored)) listed = ret kept).
    { pose proof (filter_m_silent
                    (fun it =>
                       ignored <- should_ignore fs config (join dir it) args
                                    (output_file args) pats ;;
                       ret (negb ignored)) listed
                    (fun x => keep_silent fs config args pats (join dir x)))
        as Hs.
      destruct (filter_m _ listed) as [r w]. simpl in HK, Hs. subst. reflexivity. }
    rewrite HK', bind_ret_l, Hsort.
    rewrite (for_each_app_ok _ done (item :: rest) Hdone).
    rewrite (dump_loop_read_error fs args pats _ dir depth item rest
               Hd Hf Hrel Hread).
    reflexivity. }
  split; [exact Hw | split; [reflexivity | split; [reflexivity |]]].
  split; [exact Hrun |]. intros Hrest. rewrite Hrun. exact Hrest.
Qed.

Lemma read_error_is_written_and_dump_continues_witness :
  write_file_contents_in_order Example.unreadable Example.config 2 "/r"
    Example.args [] 0
  = (fst (for_each ["build"; "builder.txt"; "conf.json"; "docs"; "sub";
                    "subway.txt"]
            (dump_item Example.unreadable Example.args []
               (write_file_contents_in_order Example.unreadable
                  Example.config 1) "/r" 0)),
     flat_map
       (fun x => snd (dump_item Example.unreadable Example.args []
                        (write_file_contents_in_order Example.unreadable
                           Example.config 1) "/r" 0 x)) [".gitignore"]
     ++ FileBegins "/r/a.txt" 0 "a.txt"
        :: map (ContentLine 0) []
        ++ [ReadError 0 "[Errno 13] Permission denied"; FileEnds 0 "a.txt"]
        ++ snd (for_each ["build"; "builder.txt"; "conf.json"; "docs"; "sub";
                          "subway.txt"]
                  (dump_item Example.unreadable Example.args []
                     (write_file_contents_in_order Example.unreadable
                        Example.config 1) "/r" 0)))
  /\ fst (write_file_contents_in_order Example.unreadable Example.config 2
            "/r" Example.args [] 0) = Ok tt.
Proof.
  destruct (@read_error_is_written_and_dump_continues Example.unreadable
              Example.config Example.args [] 1 "/r" 0
              ["sub"; "b.png"; "out.txt"; "a.txt"; "subway.txt";
               "builder.txt"; "build"; "conf.json"; "docs"; "x.PNG";
               ".gitignore"]
              ["sub"; "a.txt"; "subway.txt"; "builder.txt"; "build";
               "conf.json"; "docs"; ".gitignore"]
              [".gitignore"] "a.txt"
              ["build"; "builder.txt"; "conf.json"; "docs"; "sub";
               "subway.txt"]
              [] "[Errno 13] Permission denied" "a.txt")
    as (_ & _ & _ & Hrun & Hok);
    try (vm_compute; reflexivity).
  - intros x [<- | []]. vm_compute. reflexivity.
  - split; [exact Hrun | apply Hok; vm_compute; reflexivity].
Defined.







Lemma fst_bind_write {B} (ev : event) (f : unit -> M B) :
  fst (bind (write ev) f) = fst (f tt).
Proof. unfold bind, write. destruct (f tt). reflexivity. Qed.

(** A run that has opened its output ends as its two passes do. *)
Lemma main_body_status (fs : FS) (config : Config) (fuel : nat) (args : Args)
    (pats : list string) :
  fst (main_body fs config fuel args pats)
  = match fst (tree_section fs config fuel args pats) with
    | Ok _ => match fst (content_section fs config fuel args pats) with
              | Ok _ => Ok tt
              | Raise e => Raise e
              | Limit => Limit
              end
    | Raise e => Raise e
    | Limit => Limit
    end.
Proof.
  unfold main_body. rewrite !fst_bind_write, fst_bind.
  destruct (fst (tree_section fs config fuel args pats)); try reflexivity.
  rewrite !fst_bind_write, fst_bind.
  destruct (fst (content_section fs config fuel args pats)); reflexivity.
Qed.



Lemma In_tree_paths (evs : list event) (p : string) :
  In p (tree_paths evs) <->
  exists prefix new_prefix name, In (TreeEntry p prefix new_prefix name) evs.
Proof.
  unfold tree_paths. rewrite in_flat_map. split.
  - intros (ev & Hev & Hp). destruct ev; simpl in Hp; try contradiction.
    destruct Hp as [<- | []]. eauto.
  - intros (pre & np & name & Hev). eexists. split; [exact Hev |].
    simpl. auto.
Qed.

Lemma bind_write_snd {B} (ev : event) (f : unit -> M B) :
  snd (bind (write ev) f) = ev :: snd (f tt).
Proof. unfold bind, write. destruct (f tt). reflexivity. Qed.

Lemma bind_snd_ok {A B} (m : M A) (f : A -> M B) (a : A) :
  fst m = Ok a -> snd (bind m f) = snd m ++ snd (f a).
Proof.
  unfold bind. destruct m as [[a' | e |] w]; simpl; try discriminate.
  intros H. injection H as ->. destruct (f a). reflexivity.
Qed.

(** The document of a run that completes: the header, the tree of a
    completed tree pass, and the dump of a completed content pass. *)
Lemma main_completed (fs : FS) (config : Config) (fuel : nat) (parsed : Args)
    (evs : list event) :
  status (main fs config fuel parsed) = Ok tt ->
  output (main fs config fuel parsed) = Some evs ->
  exists pats t1 t2 t3 t4 t5 t6,
    let args := normalise_args config parsed in
    fst (tree_section fs config fuel args pats) = Ok tt
    /\ fst (content_section fs config fuel args pats) = Ok tt
    /\ evs = [Text t1; Text t2; Text t3]
             ++ snd (tree_section fs config fuel args pats)
             ++ [Text t4; Text t5]
             ++ snd (content_section fs config fuel args pats)
             ++ [Text t6].
Proof.
  unfold main. cbn [normalise_args use_gitignore repo_path].
  destruct (if use_gitignore parsed
            then load_gitignore_patterns fs (repo_path parsed)
            else ret []) as [[pats | e |] w]; try discriminate.
  destruct (isdir fs (repo_path parsed)); [| discriminate].
  cbn [negb]. set (args := normalise_args config parsed).
  destruct (main_body fs config fuel args pats) as [r written] eqn:E.
  cbn [status output]. intros -> H. injection H as <-.
  assert (Hs : fst (main_body fs config fuel args pats) = Ok tt)
    by (rewrite E; reflexivity).
  assert (Hw : snd (main_body fs config fuel args pats) = written)
    by (rewrite E; reflexivity).
  clear E. rewrite main_body_status in Hs.
  destruct (fst (tree_section fs config fuel args pats)) as [[] | |] eqn:HT;
    try discriminate.
  destruct (fst (content_section fs config fuel args pats)) as [[] | |] eqn:HD;
    try discriminate.
  exists pats. do 6 eexists. split; [exact HT | split; [exact HD |]].
  rewrite <- Hw. unfold main_body. rewrite !bind_write_snd.
  rewrite (bind_snd_ok _ _ HT), !bind_write_snd, (bind_snd_ok _ _ HD).
  reflexivity.
Qed.

Lemma write_tree_events (fs : FS) (config : Config) (args : Args)
    (pats : list string) (n : nat) :
  forall dir prefix il ir ev,
    In ev (snd (write_tree fs config n dir args pats prefix il ir)) ->
    is_tree_event ev.
Proof.
  induction n as [| n IH]; intros dir prefix il ir ev H; [destruct H |].
  rewrite write_tree_unfold in H.
  apply bind_In in H. destruct H as [H | (_ & _ & H)].
  { destruct ir; simpl in H; [destruct H as [<- | []]; exact I | destruct H]. }
  apply bind_In in H. destruct H as [H | (listed & _ & H)].
  { destruct (os_listdir_cases fs dir) as [(l & _ & E) | (e & E)];
      rewrite E in H; destruct H. }
  apply for_each_In in H. destruct H as ([i item] & _ & H).
  destruct (tree_item_cases fs config args pats (write_tree fs config n) dir
              prefix (length (sort listed)) i item)
    as [(e & _ & E) | [(_ & E) | (_ & E)]]; rewrite E in H;
    try (destruct H; fail).
  apply bind_In in H. destruct H as [H | (_ & _ & H)].
  - destruct H as [<- | []]. exact I.
  - destruct (isdir fs (join dir item)); [| destruct H]. apply IH in H. exact H.
Qed.

Lemma dump_events (fs : FS) (config : Config) (args : Args)
    (pats : list string) (n : nat) :
  forall dir depth ev,
    In ev (snd (write_file_contents_in_order fs config n dir args pats depth)) ->
    is_dump_event ev.
Proof.
  induction n as [| n IH]; intros dir depth ev H; [destruct H |].
  rewrite dump_unfold in H.
  apply bind_In in H. destruct H as [H | (listed & _ & H)].
  { destruct (os_listdir_cases fs dir) as [(l & _ & E) | (e & E)];
      rewrite E in H; destruct H. }
  apply bind_In in H. destruct H as [H | (kept & _ & H)].
  { rewrite filter_m_silent in H by (intros x; apply keep_silent).
    destruct H. }
  apply for_each_In in H. destruct H as (item & _ & H).
  unfold dump_item in H.
  apply bind_In in H. destruct H as [H | (rel & _ & H)].
  { destruct (os_relpath_cases fs (join dir item) (repo_path args))
      as [(rel & E) | E]; rewrite E in H; destruct H. }
  destruct (isdir fs (join dir item)); [apply IH in H; exact H |].
  destruct (isfile fs (join dir item)); [| destruct H].
  apply bind_In in H. destruct H as [H | (_ & _ & H)].
  { destruct H as [<- | []]. exact I. }
  apply bind_In in H. destruct H as [H | (_ & _ & H)].
  { rewrite write_file_content_spec in H. simpl in H.
    apply in_app_iff in H. destruct H as [H | H].
    - apply in_map_iff in H. destruct H as (? & <- & _). exact I.
    - destruct (snd (read_file fs (join dir item)));
        [destruct H as [<- | []]; exact I | destruct H]. }
  destruct H as [<- | []]. exact I.
Qed.

(** C1.  In a run that completes, every path with a line in the tree
    section and every file dumped in the content section is a path for
    which the filter, called by both passes with the same arguments and
    patterns, answers that it is kept; and the regular files listed in
    the tree section are exactly the files whose contents are dumped. *)
Theorem tree_and_dump_list_the_same_files (fs : FS) (config : Config)
    (fuel : nat) (parsed : Args) (evs : list event) :
  status (main fs config fuel parsed) = Ok tt ->
  output (main fs config fuel parsed) = Some evs ->
  (exists pats, forall p,
       In p (tree_paths evs) \/ In p (dumped_files evs) ->
       should_ignore fs config p (normalise_args config parsed)
         (output_file parsed) pats = ret false)
  /\ (forall p, In p (tree_files fs evs) <-> In p (dumped_files evs)).
Proof.
  intros Hs Ho.
  destruct (main_completed _ _ _ _ Hs Ho)
    as (pats & t1 & t2 & t3 & t4 & t5 & t6 & HT & HD & ->).
  set (args := normalise_args config parsed) in *.
  unfold tree_section, content_section in *.
  split.
  - exists pats. intros p [H | H].
    + apply In_tree_paths in H. destruct H as (pre & np & name & H).
      rewrite !in_app_iff in H.
      destruct H as [H | [H | [H | [H | H]]]].
      * simpl in H. intuition discriminate.
      * apply tree_entries_kept in H. apply H.
      * simpl in H. intuition discriminate.
      * apply dump_events in H. destruct H.
      * simpl in H. intuition discriminate.
    + apply In_dumped_files in H. destruct H as (d & r & H).
      rewrite !in_app_iff in H.
      destruct H as [H | [H | [H | [H | H]]]].
      * simpl in H. intuition discriminate.
      * apply write_tree_events in H. destruct H.
      * simpl in H. intuition discriminate.
      * apply dump_begins_kept in H. apply H.
      * simpl in H. intuition discriminate.
  - intros p.
    rewrite !tree_files_app, !dumped_files_app, !in_app_iff.
    pose proof (passes_agree fs config args pats fuel _ _ _ _ _ HT HD p) as HA.
    assert (HX : ~ In p (tree_files fs
                           (snd (write_file_contents_in_order fs config fuel
                                   (repo_path args) args pats 0)))).
    { intros H. apply In_tree_files in H. destruct H as (_ & ? & ? & ? & H).
      apply dump_events in H. destruct H. }
    assert (HY : ~ In p (dumped_files
                           (snd (write_tree fs config fuel (repo_path args)
                                   args pats "" true true)))).
    { intros H. apply In_dumped_files in H. destruct H as (? & ? & H).
      apply write_tree_events in H. destruct H. }
    simpl (tree_files fs [_; _; _]). simpl (tree_files fs [_; _]).
    simpl (tree_files fs [_]). simpl (dumped_files [_; _; _]).
    simpl (dumped_files [_; _]). simpl (dumped_files [_]).
    simpl (In p []). tauto.
Qed.

Lemma tree_and_dump_list_the_same_files_witness :
  In "/r/sub/c.txt" (tree_files Example.fs Example.run_events)
  <-> In "/r/sub/c.txt" (dumped_files Example.run_events).
Proof.
  apply (tree_and_dump_list_the_same_files Example.fs Example.config 5
           Example.args (evs := Example.run_events));
    vm_compute; reflexivity.
Defined.

End RunTheorems.

(** ** Recursion depth *)
Section Fuel.
Import PyStr OsPath.

Variable fs : FS.
Variable config : Config.
Variable args : Args.
Variable pats : list string.

Lemma for_each_not_limit {A} (body : A -> M unit) (l : list A) :
  (forall x, In x l -> fst (body x) <> Limit) ->
  fst (for_each l body) <> Limit.
Proof.
  induction l as [| x l IH]; intros H; [discriminate |].
  simpl. rewrite fst_bind.
  pose proof (H x (or_introl eq_refl)) as Hx.
  destruct (fst (body x)); [| discriminate | congruence].
  apply IH. intros y Hy. apply H. right. exact Hy.
Qed.

Lemma for_each_mono {A} (f g : A -> M unit) (l : list A) (w : list event) :
  (forall x wx, In x l -> f x = (Ok tt, wx) -> g x = (Ok tt, wx)) ->
  for_each l f = (Ok tt, w) -> for_each l g = (Ok tt, w).
Proof.
  revert w. induction l as [| x l IH]; intros w H; [auto |].
  simpl. unfold bind. destruct (f x) as [[[] | e |] wx] eqn:Ef; try discriminate.
  rewrite (H x wx (or_introl eq_refl) Ef).
  destruct (for_each l f) as [[[] | e |] wl] eqn:El; try discriminate.
  rewrite (IH wl); [auto | | reflexivity].
  intros y wy Hy. apply H. right. exact Hy.
Qed.

Lemma bind_mono {A B} (m : M A) (f g : A -> M B) (b : B) (w : list event) :
  (forall a wa, fst m = Ok a -> f a = (Ok b, wa) -> g a = (Ok b, wa)) ->
  bind m f = (Ok b, w) -> bind m g = (Ok b, w).
Proof.
  unfold bind. destruct m as [[a | e |] w0]; try discriminate.
  destruct (f a) as [r wa] eqn:E. intros H Heq. injection Heq as -> <-.
  rewrite (H a wa eq_refl E). reflexivity.
Qed.

(** A tree pass that completes within some recursion depth gives the
    same tree within any greater depth. *)
Lemma write_tree_fuel_mono (n : nat) :
  forall dir prefix il ir w,
    write_tree fs config n dir args pats prefix il ir = (Ok tt, w) ->
    write_tree fs config (S n) dir args pats prefix il ir = (Ok tt, w).
Proof.
  induction n as [| n IH]; intros dir prefix il ir w H; [discriminate |].
  rewrite write_tree_unfold in H. rewrite write_tree_unfold. revert H.
  apply bind_mono. intros [] w0 _. apply bind_mono. intros listed w1 _.
  apply for_each_mono.
  - intros [i item] wx _.
    destruct (tree_item_cases fs config args pats (write_tree fs config n)
                dir prefix (length (sort listed)) i item)
      as [(e & _ & E1) | [(Hk & E1) | (Hk & E1)]];
      destruct (tree_item_cases fs config args pats
                  (write_tree fs config (S n)) dir prefix
                  (length (sort listed)) i item)
        as [(e' & He' & E2) | [(Hk' & E2) | (Hk' & E2)]];
      rewrite E1, E2; try congruence;
      try (rewrite Hk in *; discriminate).
    unfold bind, write.
    destruct (isdir fs (join dir item)); [| auto].
    destruct (write_tree fs config n (join dir item) args pats _ _ false)
      as [[[] | e |] ws] eqn:Es; try discriminate.
    rewrite (IH _ _ _ _ _ Es). auto.
Qed.

Lemma fst_bind_root {B} (ir : bool) (name : string) (f : unit -> M B) :
  fst (bind (if ir then write (TreeRoot name) else ret tt) f) = fst (f tt).
Proof.
  destruct ir; [apply fst_bind_write | rewrite bind_ret_l; reflexivity].
Qed.

(** A measure of how deep the directories nest below a path. *)
Variable rank : string -> nat.
Hypothesis rank_decreases :
  forall dir listed item,
    listdir fs dir = inl listed -> In item listed ->
    isdir fs (join dir item) = true -> rank (join dir item) < rank dir.

(** With more fuel than the directories nest, the tree pass returns or
    raises: it does not run out of fuel. *)
Lemma write_tree_terminates (n : nat) :
  forall dir prefix il ir,
    rank dir < n ->
    fst (write_tree fs config n dir args pats prefix il ir) <> Limit.
Proof.
  induction n as [| n IH]; intros dir prefix il ir Hr; [lia |].
  rewrite write_tree_unfold, fst_bind_root, fst_bind.
  destruct (os_listdir_cases fs dir) as [(listed & HL & E) | (e & E)];
    rewrite E; [| cbn; discriminate].
  cbn [fst ret]. apply for_each_not_limit. intros [i item] Hin.
  apply (proj1 (In_enumerate _ _ _)), nth_error_In in Hin.
  apply (proj1 (In_sort _ _)) in Hin.
  destruct (tree_item_cases fs config args pats (write_tree fs config n) dir
              prefix (length (sort listed)) i item)
    as [(e & _ & E1) | [(_ & E1) | (_ & E1)]]; rewrite E1;
    try (cbn; discriminate).
  rewrite fst_bind_write.
  destruct (isdir fs (join dir item)) eqn:Hd; [| discriminate].
  apply IH. pose proof (rank_decreases dir item HL Hin Hd). lia.
Qed.

(** The same for the content pass. *)
Lemma dump_terminates (n : nat) :
  forall dir depth,
    rank dir < n ->
    fst (write_file_contents_in_order fs config n dir args pats depth) <> Limit.
Proof.
  induction n as [| n IH]; intros dir depth Hr; [lia |].
  rewrite dump_unfold, fst_bind.
  destruct (os_listdir_cases fs dir) as [(listed & HL & E) | (e & E)];
    rewrite E; [| cbn; discriminate].
  cbn [fst ret]. rewrite fst_bind.
  destruct (fst (filter_m _ listed)) as [kept | e |] eqn:HK.
  - apply for_each_not_limit. intros item Hin.
    apply (proj1 (In_sort _ _)) in Hin.
    apply (proj1 (filter_m_ok _ _ HK item)) in Hin. destruct Hin as [Hin _].
    unfold dump_item. rewrite fst_bind.
    destruct (os_relpath_cases fs (join dir item) (repo_path args))
      as [(rel & E1) | E1]; rewrite E1; [| cbn; discriminate].
    cbn [fst ret].
    destruct (isdir fs (join dir item)) eqn:Hd.
    + apply IH. pose proof (rank_decreases dir item HL Hin Hd). lia.
    + destruct (isfile fs (join dir item)); [| discriminate].
      rewrite !fst_bind_write, fst_bind, write_file_content_spec.
      discriminate.
  - discriminate.
  - exfalso. revert HK. clear. induction listed as [| x l IHl]; [discriminate |].
    simpl. rewrite !fst_bind.
    pose proof (tree_item_cases fs config args pats
                  (fun _ _ _ _ _ _ => ret tt) dir "" 0 0 x) as Hc.
    destruct Hc as [(e & He & _) | [(Hk & _) | (Hk & _)]].
    + rewrite He. discriminate.
    + rewrite Hk. cbn [fst ret]. rewrite fst_bind.
      destruct (fst (filter_m _ l)); [discriminate | discriminate | auto].
    + rewrite Hk. cbn [fst ret]. rewrite fst_bind.
      destruct (fst (filter_m _ l)); [discriminate | discriminate | auto].
Qed.

End Fuel.

(** With more fuel than the directories nest below the root, a run
    returns or raises. *)
Lemma main_terminates (fs : FS) (config : Config) (rank : string -> nat)
    (fuel : nat) (parsed : Args) :
  (forall dir listed item,
      listdir fs dir = inl listed -> In item listed ->
      isdir fs (OsPath.join dir item) = true ->
      rank (OsPath.join dir item) < rank dir) ->
  rank (repo_path parsed) < fuel ->
  status (main fs config fuel parsed) <> Limit.
Proof.
  intros Hrank Hr. unfold main.
  set (args := normalise_args config parsed).
  change (use_gitignore args) with (use_gitignore parsed).
  change (repo_path args) with (repo_path parsed).
  assert (Hbody : forall g, fst (main_body fs config fuel args g) <> Limit).
  { intros g. rewrite main_body_status. unfold tree_section, content_section.
    change (repo_path args) with (repo_path parsed).
    pose proof (@write_tree_terminates fs config args g rank Hrank fuel
                  (repo_path parsed) "" true true Hr).
    pose proof (@dump_terminates fs config args g rank Hrank fuel
                  (repo_path parsed) 0 Hr).
    destruct (fst (write_tree fs config fuel (repo_path parsed) args g
                     "" true true)); try congruence.
    destruct (fst (write_file_contents_in_order fs config fuel
                     (repo_path parsed) args g 0)); congruence. }
  destruct (if use_gitignore parsed
            then load_gitignore_patterns fs (repo_path parsed)
            else ret []) as [[g | e |] w] eqn:E.
  - destruct (isdir fs (repo_path parsed)); [| discriminate]. cbn [negb].
    specialize (Hbody g).
    destruct (main_body fs config fuel args g) as [r w']. exact Hbody.
  - discriminate.
  - exfalso. revert E. unfold load_gitignore_patterns.
    destruct (use_gitignore parsed); [| discriminate].
    destruct (exists_ fs (OsPath.join (repo_path parsed) ".gitignore"));
      [| discriminate].
    destruct (read_file fs (OsPath.join (repo_path parsed) ".gitignore"))
      as [lines [e |]]; discriminate.
Qed.

(** The example repository nests one level deep, so its run completes
    within any recursion depth greater than one. *)
Lemma example_rank_decreases (dir : string) (listed : list string)
    (item : string) :
  listdir Example.fs dir = inl listed -> In item listed ->
  isdir Example.fs (OsPath.join dir item) = true ->
  Example.rank (OsPath.join dir item) < Example.rank dir.
Proof.
  intros HL Hin Hd.
  unfold Example.fs, listdir, Example.lookup, Example.listings in HL.
  cbn [find fst snd] in HL.
  repeat match type of HL with
         | context [String.eqb ?k dir] =>
             destruct (String.eqb_spec k dir) as [<- | _]
         end;
    try discriminate; injection HL as <-; simpl in Hin;
    repeat (destruct Hin as [<- | Hin];
            [vm_compute in Hd; try discriminate; vm_compute; lia |]);
    destruct Hin.
Qed.

Lemma example_run_terminates :
  status (main Example.fs Example.config 2 Example.args) <> Limit.
Proof.
  apply (main_terminates Example.fs Example.config Example.rank).
  - exact example_rank_decreases.
  - vm_compute. lia.
Qed.

(** * Further properties of the program *)

(** ** Loading the gitignore patterns *)
Section GitignoreLoader.
Import PyStr OsPath.

Lemma lstrip_no_leading_space (s : string) : no_leading_space (lstrip s).
Proof.
  induction s as [| a s IH]; simpl; [exact I |].
  destruct (is_space a) eqn:E; [exact IH | exact E].
Qed.

Lemma lstrip_fixed (s : string) : no_leading_space s -> lstrip s = s.
Proof. destruct s as [| a s]; simpl; [reflexivity | intros ->; reflexivity]. Qed.

Lemma rstrip_no_leading_space (s : string) :
  no_leading_space s -> no_leading_space (rstrip s).
Proof.
  destruct s as [| a s]; simpl; [exact id |]. intros H.
  destruct (rstrip s); [rewrite H |]; exact H.
Qed.

Lemma rstrip_idempotent (s : string) : rstrip (rstrip s) = rstrip s.
Proof.
  induction s as [| a s IH]; [reflexivity |].
  simpl. destruct (rstrip s) as [| b r] eqn:E.
  - destruct (is_space a) eqn:Ea; [reflexivity |]. simpl. rewrite Ea. reflexivity.
  - change (rstrip (String a (String b r)))
      with (match rstrip (String b r) with
            | EmptyString => if is_space a then EmptyString
                             else String a EmptyString
            | String c r' => String a (String c r')
            end).
    rewrite IH. reflexivity.
Qed.

Lemma strip_idempotent (s : string) : strip (strip s) = strip s.
Proof.
  unfold strip.
  rewrite (lstrip_fixed (rstrip (lstrip s)))
    by (apply rstrip_no_leading_space, lstrip_no_leading_space).
  apply rstrip_idempotent.
Qed.

(** X1.  Whatever the [.gitignore] holds, the patterns that
    [load_gitignore_patterns] returns are trimmed, non-empty and not
    comments: each is the trimmed form of a line of the file, equal to
    its own trimmed form, different from the empty string, and does not
    start with [#]; loading writes nothing to the output. *)
Theorem loaded_patterns_are_trimmed (fs : FS) (repo : string)
    (pats : list string) (w : list event) :
  load_gitignore_patterns fs repo = (Ok pats, w) ->
  w = []
  /\ forall p, In p pats ->
       p <> ""
       /\ strip p = p
       /\ startswith p "#" = false
       /\ exists line,
            In line (fst (read_file fs (join repo ".gitignore")))
            /\ p = strip line.
Proof.
  unfold load_gitignore_patterns.
  destruct (exists_ fs (join repo ".gitignore")).
  - destruct (read_file fs (join repo ".gitignore")) as [lines [e |]];
      [discriminate |].
    intros H. injection H as <- <-. split; [reflexivity |].
    intros p Hp. apply in_map_iff in Hp. destruct Hp as (line & <- & Hl).
    apply filter_In in Hl. destruct Hl as [Hl Hk].
    apply andb_true_iff in Hk. destruct Hk as [Ht Hc].
    apply negb_true_iff in Hc. repeat split.
    + intros E. rewrite E in Ht. discriminate.
    + apply strip_idempotent.
    + exact Hc.
    + exists line. split; [exact Hl | reflexivity].
  - intros H. injection H as <- <-. split; [reflexivity | intros p []].
Qed.

Lemma loaded_patterns_are_trimmed_witness :
  "build" <> "" /\ strip "build" = "build" /\ startswith "build" "#" = false
  /\ exists line,
       In line (fst (read_file Example.fs (join "/r" ".gitignore")))
       /\ "build" = strip line.
Proof.
  assert (H : load_gitignore_patterns Example.fs "/r" = (Ok ["build"], []))
    by (vm_compute; reflexivity).
  apply (proj2 (loaded_patterns_are_trimmed Example.fs "/r" H) "build").
  left. reflexivity.
Defined.

End GitignoreLoader.

(** ** The arguments and the start of a run *)
Section RunStart.
Import PyStr OsPath.

(** X2.  With [--use-gitignore], a [.gitignore] at the root that exists
    and cannot be read ends the run with that error: the patterns are
    loaded before the output file is opened, so no output file is
    created and nothing is printed. *)
Theorem unreadable_gitignore_aborts (fs : FS) (config : Config) (fuel : nat)
    (parsed : Args) (lines : list string) (e : string) :
  use_gitignore parsed = true ->
  exists_ fs (join (repo_path parsed) ".gitignore") = true ->
  read_file fs (join (repo_path parsed) ".gitignore") = (lines, Some e) ->
  main fs config fuel parsed
  = {| status := Raise e; output := None; printed := [] |}.
Proof.
  intros Hg Hex Hread. unfold main.
  cbn [normalise_args use_gitignore repo_path].
  rewrite Hg. unfold load_gitignore_patterns. rewrite Hex, Hread.
  reflexivity.
Qed.

Lemma unreadable_gitignore_aborts_witness :
  main Example.unreadable Example.config 5 Example.with_gitignore
  = {| status := Raise "[Errno 13] Permission denied"; output := None;
       printed := [] |}.
Proof.
  apply (unreadable_gitignore_aborts Example.unreadable Example.config 5
           Example.with_gitignore (lines := [])); reflexivity.
Defined.

Lemma normalise_args_ignore_types (config : Config) (args : Args)
    (types : list string) :
  ignore_types args <> ["none"] -> types <> ["none"] ->
  normalise_args config (with_ignore_types args types)
  = normalise_args config args.
Proof.
  intros H1 H2. unfold normalise_args, with_ignore_types.
  cbn [repo_path output_file ignore_files ignore_types exclude_dir
       ignore_settings include_dir use_gitignore].
  destruct (list_eq_dec string_dec (ignore_types args) ["none"]);
    [contradiction |].
  destruct (list_eq_dec string_dec types ["none"]); [contradiction |].
  reflexivity.
Qed.

(** X3.  The extensions given with [--ignore-types] are not used: unless
    the value is the single word [none], [main] replaces it with the
    lists of [config.json], so two runs that differ only in that value
    are the same run. *)
Theorem ignore_types_argument_is_overridden (fs : FS) (config : Config)
    (fuel : nat) (parsed : Args) (types : list string) :
  ignore_types parsed <> ["none"] ->
  types <> ["none"] ->
  main fs config fuel (with_ignore_types parsed types)
  = main fs config fuel parsed
  /\ ignore_types (normalise_args config (with_ignore_types parsed types))
     = IMAGE_EXTENSIONS config ++ VIDEO_EXTENSIONS config
       ++ AUDIO_EXTENSIONS config ++ DOCUMENT_EXTENSIONS config
       ++ EXECUTABLE_EXTENSIONS config ++ ADDITIONAL_IGNORE_TYPES config.
Proof.
  intros H1 H2. split.
  - unfold main. rewrite (normalise_args_ignore_types config parsed H1 H2).
    reflexivity.
  - rewrite (normalise_args_ignore_types config parsed H1 H2).
    unfold normalise_args. cbn [ignore_types].
    destruct (list_eq_dec string_dec (ignore_types parsed) ["none"]);
      [contradiction | reflexivity].
Qed.

Lemma ignore_types_argument_is_overridden_witness :
  main Example.fs Example.config 5
    (with_ignore_types Example.args [".txt"; ".md"])
  = main Example.fs Example.config 5 Example.args.
Proof.
  apply (ignore_types_argument_is_overridden Example.fs Example.config 5
           Example.args (types := [".txt"; ".md"])); discriminate.
Defined.

(** X4.  The ignored file names and extensions concern regular files
    only, and the excluded directory names directories only: for a path
    that is not a regular file, [should_ignore] answers as it does with
    no ignored names and extensions at all, and for a path that is not a
    directory, as it does with no excluded directory names. *)
Theorem ignore_lists_are_kind_restricted (fs : FS) (config : Config)
    (item : string) (args : Args) (out : string) (pats : list string) :
  (isfile fs item = false ->
   should_ignore fs config item args out pats
   = should_ignore fs config item (without_ignore_lists args) out pats)
  /\ (isdir fs item = false ->
      should_ignore fs config item args out pats
      = should_ignore fs config item (without_exclude_dir args) out pats).
Proof.
  split; intros H; unfold should_ignore; rewrite H; cbn [andb];
    rewrite !gitignore_loop_unfold; reflexivity.
Qed.

Lemma ignore_lists_are_kind_restricted_witness :
  should_ignore Example.fs Example.config "/r/conf.json"
    (only_types "/r" "out.txt" [".json"]) "out.txt" []
  = should_ignore Example.fs Example.config "/r/conf.json"
      (without_ignore_lists (only_types "/r" "out.txt" [".json"])) "out.txt" [].
Proof.
  apply (proj1 (ignore_lists_are_kind_restricted Example.fs Example.config
                  "/r/conf.json" (only_types "/r" "out.txt" [".json"])
                  "out.txt" [])).
  reflexivity.
Defined.

End RunStart.

(** ** What holds of every run, completed or not *)

Lemma snd_bind {A B} (m : M A) (f : A -> M B) :
  snd (bind m f)
  = snd m ++ match fst m with
             | Ok a => snd (f a)
             | _ => []
             end.
Proof.
  unfold bind. destruct m as [[a | e |] w]; simpl.
  - destruct (f a). reflexivity.
  - now rewrite app_nil_r.
  - now rewrite app_nil_r.
Qed.

(** Properties of the text written that hold of nothing written and of
    one text after another. *)
Section WrittenInvariant.

Variable P : list event -> Prop.
Hypothesis P_nil : P [].
Hypothesis P_app : forall a b, P a -> P b -> P (a ++ b).

Lemma bind_inv {A B} (m : M A) (f : A -> M B) :
  P (snd m) -> (forall a, P (snd (f a))) -> P (snd (bind m f)).
Proof.
  intros Hm Hf. rewrite snd_bind. apply P_app; [exact Hm |].
  destruct (fst m); [apply Hf | exact P_nil | exact P_nil].
Qed.

Lemma for_each_inv {A} (body : A -> M unit) (l : list A) :
  (forall x, In x l -> P (snd (body x))) -> P (snd (for_each l body)).
Proof.
  induction l as [| x l IH]; intros H; [exact P_nil |].
  simpl. apply bind_inv; [apply H; left; reflexivity |].
  intros _. apply IH. intros y Hy. apply H. right. exact Hy.
Qed.

End WrittenInvariant.

Section EveryRun.
Import PyStr OsPath.

Variable fs : FS.
Variable config : Config.

Lemma main_output (fuel : nat) (parsed : Args) (evs : list event) :
  output (main fs config fuel parsed) = Some evs ->
  isdir fs (repo_path parsed) = true
  /\ exists pats,
       evs = snd (main_body fs config fuel (normalise_args config parsed) pats).
Proof.
  unfold main. cbn [normalise_args use_gitignore repo_path].
  destruct (if use_gitignore parsed
            then load_gitignore_patterns fs (repo_path parsed)
            else ret []) as [[pats | e |] w]; try discriminate.
  destruct (isdir fs (repo_path parsed)); [| discriminate]. cbn [negb].
  destruct (main_body fs config fuel (normalise_args config parsed) pats)
    as [r written] eqn:E.
  cbn [output]. intros H. injection H as <-. split; [reflexivity |].
  exists pats. rewrite E. reflexivity.
Qed.

(** Whatever is written to the output file is a piece of the fixed
    text, a write of the tree pass or a write of the content pass. *)
Lemma main_body_In (fuel : nat) (args : Args) (pats : list string)
    (ev : event) :
  In ev (snd (main_body fs config fuel args pats)) ->
  (exists s, ev = Text s)
  \/ In ev (snd (tree_section fs config fuel args pats))
  \/ In ev (snd (content_section fs config fuel args pats)).
Proof.
  unfold main_body. intros H.
  repeat (apply bind_In in H;
          destruct H as [H | (_ & _ & H)];
          [first [ destruct H as [<- | []]; left; eexists; reflexivity
                 | right; left; exact H
                 | right; right; exact H ] |]).
  destruct H as [<- | []]. left. eexists. reflexivity.
Qed.

Lemma should_ignore_false_rules (item : string) (args : Args) (out : string)
    (pats : list string) :
  should_ignore fs config item args out pats = ret false ->
  rule_output_file fs item out = false
  /\ rule_excluded_dir fs item args = false
  /\ rule_include_dir fs item args = false
  /\ rule_ignored_file fs item args = false
  /\ rule_settings config item args = false.
Proof.
  unfold should_ignore, rule_output_file, rule_excluded_dir, rule_include_dir,
    rule_ignored_file, rule_settings, os_abspath.
  rewrite <- andb_assoc, mem_nonempty.
  repeat match goal with
         | |- context [if ?c then ret true else _] =>
             destruct c; [discriminate |]
         end.
  intros _. repeat split.
Qed.

(** X5.  In every run that opens its output file, completed or cut
    short by an error, no path with a line in the tree and no dumped
    file is the output file itself, an excluded directory, a path
    outside the include test, a regular file with an ignored name or
    extension, or, with the settings flag, a path with a settings
    extension. *)
Theorem no_ignored_path_is_written (fuel : nat) (parsed : Args)
    (evs : list event) (p : string) :
  output (main fs config fuel parsed) = Some evs ->
  In p (tree_paths evs) \/ In p (dumped_files evs) ->
  rule_output_file fs p (output_file parsed) = false
  /\ rule_excluded_dir fs p (normalise_args config parsed) = false
  /\ rule_include_dir fs p (normalise_args config parsed) = false
  /\ rule_ignored_file fs p (normalise_args config parsed) = false
  /\ rule_settings config p (normalise_args config parsed) = false.
Proof.
  intros Ho Hp. apply main_output in Ho. destruct Ho as (_ & pats & ->).
  set (args := normalise_args config parsed) in *.
  change (output_file parsed) with (output_file args).
  apply (@should_ignore_false_rules p args (output_file args) pats).
  destruct Hp as [Hp | Hp].
  - apply In_tree_paths in Hp. destruct Hp as (pre & np & name & H).
    apply main_body_In in H. destruct H as [(s & H) | [H | H]].
    + discriminate.
    + apply tree_entries_kept in H. apply H.
    + apply dump_events in H. destruct H.
  - apply In_dumped_files in Hp. destruct Hp as (d & r & H).
    apply main_body_In in H. destruct H as [(s & H) | [H | H]].
    + discriminate.
    + apply write_tree_events in H. destruct H.
    + apply dump_begins_kept in H. apply H.
Qed.

End EveryRun.

Lemma no_ignored_path_is_written_witness :
  rule_output_file Example.fs "/r/sub/c.txt" (output_file Example.args) = false
  /\ rule_excluded_dir Example.fs "/r/sub/c.txt"
       (normalise_args Example.config Example.args) = false
  /\ rule_include_dir Example.fs "/r/sub/c.txt"
       (normalise_args Example.config Example.args) = false
  /\ rule_ignored_file Example.fs "/r/sub/c.txt"
       (normalise_args Example.config Example.args) = false
  /\ rule_settings Example.config "/r/sub/c.txt"
       (normalise_args Example.config Example.args) = false.
Proof.
  apply (no_ignored_path_is_written Example.fs Example.config 5 Example.args
           (evs := Example.run_events)).
  - vm_compute. reflexivity.
  - right. vm_compute. tauto.
Defined.


(** ** The shape of the two sections *)
Section Sections.
Import PyStr OsPath.

Variable fs : FS.
Variable config : Config.
Variable args : Args.
Variable pats : list string.

Lemma balanced_nil : balanced [].
Proof. reflexivity. Qed.

Lemma balanced_app (a b : list event) :
  balanced a -> balanced b -> balanced (a ++ b).
Proof.
  unfold balanced, begin_paths, end_paths. intros Ha Hb.
  rewrite !flat_map_app. now f_equal.
Qed.

Lemma tree_events_no_markers (evs : list event) :
  (forall ev, In ev evs -> is_tree_event ev) ->
  begin_paths evs = [] /\ end_paths evs = [].
Proof.
  induction evs as [| ev evs IH]; intros H; [split; reflexivity |].
  destruct IH as [IH1 IH2]; [intros; apply H; right; assumption |].
  pose proof (H ev (or_introl eq_refl)) as Hev.
  destruct ev; simpl in Hev; try contradiction; simpl; auto.
Qed.

Lemma content_no_markers (file_path : string) (depth : nat) :
  begin_paths (snd (write_file_content fs file_path depth)) = []
  /\ end_paths (snd (write_file_content fs file_path depth)) = [].
Proof.
  rewrite write_file_content_spec. cbn [snd].
  unfold begin_paths, end_paths. rewrite !flat_map_app.
  assert (H : forall f : event -> list string,
             (forall l, f (ContentLine depth l) = []) ->
             flat_map f (map (ContentLine depth)
                           (fst (read_file fs file_path))) = []).
  { intros f Hf. induction (fst (read_file fs file_path)) as [| l ls IH];
      [reflexivity |]. simpl. now rewrite Hf, IH. }
  rewrite !H by reflexivity.
  destruct (snd (read_file fs file_path)); split; reflexivity.
Qed.

Lemma file_block_written (p : string) (d : nat) (r : string) :
  snd (write (FileBegins p d r) ;; write_file_content fs p d ;;
       write (FileEnds d r))
  = FileBegins p d r :: snd (write_file_content fs p d) ++ [FileEnds d r].
Proof.
  rewrite bind_write_snd, snd_bind.
  replace (fst (write_file_content fs p d)) with (@Ok unit tt)
    by (rewrite write_file_content_spec; reflexivity).
  reflexivity.
Qed.

(** Each begin marker of the content pass is followed by its end
    marker, also when the pass is cut short. *)
Lemma dump_balanced (n : nat) :
  forall dir depth,
    balanced (snd (write_file_contents_in_order fs config n dir args pats depth)).
Proof.
  induction n as [| n IH]; intros dir depth; [reflexivity |].
  rewrite dump_unfold.
  apply (bind_inv balanced balanced_nil balanced_app).
  { destruct (os_listdir_cases fs dir) as [(l & _ & E) | (e & E)];
      rewrite E; reflexivity. }
  intros listed. apply (bind_inv balanced balanced_nil balanced_app).
  { rewrite filter_m_silent by (intros x; apply keep_silent). reflexivity. }
  intros kept. apply (for_each_inv balanced balanced_nil balanced_app).
  intros item _. unfold dump_item.
  apply (bind_inv balanced balanced_nil balanced_app).
  { destruct (os_relpath_cases fs (join dir item) (repo_path args))
      as [(rel & E) | E]; rewrite E; reflexivity. }
  intros rel. destruct (isdir fs (join dir item)); [apply IH |].
  destruct (isfile fs (join dir item)); [| reflexivity].
  rewrite file_block_written.
  pose proof (content_no_markers (join dir item) depth) as [Hb He].
  unfold balanced, begin_paths, end_paths in *.
  cbn [flat_map]. rewrite !flat_map_app, Hb, He. reflexivity.
Qed.

Lemma write_tree_no_root (n : nat) :
  forall dir prefix il name,
    ~ In (TreeRoot name)
        (snd (write_tree fs config n dir args pats prefix il false)).
Proof.
  induction n as [| n IH]; intros dir prefix il name H; [destruct H |].
  rewrite write_tree_unfold in H.
  apply bind_In in H. destruct H as [[] | (_ & _ & H)].
  apply bind_In in H. destruct H as [H | (listed & _ & H)].
  { destruct (os_listdir_cases fs dir) as [(l & _ & E) | (e & E)];
      rewrite E in H; destruct H. }
  apply for_each_In in H. destruct H as ([i item] & _ & H).
  destruct (tree_item_cases fs config args pats (write_tree fs config n) dir
              prefix (length (sort listed)) i item)
    as [(e & _ & E) | [(_ & E) | (_ & E)]]; rewrite E in H;
    try (destruct H; fail).
  apply bind_In in H. destruct H as [H | (_ & _ & H)].
  - destruct H as [H | []]. discriminate.
  - destruct (isdir fs (join dir item)); [| destruct H].
    apply IH in H. exact H.
Qed.

Lemma write_tree_root_first (n : nat) (dir prefix : string) (il : bool) :
  write_tree fs config (S n) dir args pats prefix il true
  = (fst (write_tree fs config (S n) dir args pats prefix il false),
     TreeRoot (basename dir)
     :: snd (write_tree fs config (S n) dir args pats prefix il false)).
Proof.
  rewrite !write_tree_unfold. rewrite bind_ret_l.
  unfold bind at 1, write.
  destruct (listed <- os_listdir fs dir;; _) as [r w]. reflexivity.
Qed.

(** X7.  The line of the root directory is the first write of the tree
    pass and the only one of its kind: rendering from the root writes
    the root's basename and then exactly what rendering the same
    directory as a subdirectory writes, in which no root line occurs. *)
Theorem root_line_is_written_once (n : nat) (dir prefix : string) (il : bool) :
  write_tree fs config (S n) dir args pats prefix il true
  = (fst (write_tree fs config (S n) dir args pats prefix il false),
     TreeRoot (basename dir)
     :: snd (write_tree fs config (S n) dir args pats prefix il false))
  /\ forall name,
       ~ In (TreeRoot name)
           (snd (write_tree fs config (S n) dir args pats prefix il false)).
Proof.
  split; [apply write_tree_root_first | intros name; apply write_tree_no_root].
Qed.

Lemma split_nonempty (c : ascii) (s : string) : split c s <> [].
Proof.
  destruct s as [| a s]; simpl; [discriminate |].
  destruct (Ascii.eqb a c); [discriminate |].
  destruct (split c s); discriminate.
Qed.

Lemma split_trailing_sep (p : string) :
  split sep (p ++ "/") = split sep p ++ [EmptyString].
Proof.
  induction p as [| a p IH]; [reflexivity |].
  simpl. destruct (Ascii.eqb a sep); [now rewrite IH |].
  rewrite IH. pose proof (split_nonempty sep p).
  destruct (split sep p); [contradiction | reflexivity].
Qed.

Lemma basename_trailing_sep (p : string) : basename (p ++ "/") = "".
Proof. unfold basename. rewrite split_trailing_sep. apply last_last. Qed.

(** X8.  A repository path given with a trailing slash has an empty
    basename, so the root line of the tree is a lone slash. *)
Theorem trailing_slash_root_line (n : nat) (p prefix : string) (il : bool) :
  exists r rest,
    write_tree fs config (S n) (p ++ "/") args pats prefix il true
    = (r, TreeRoot "" :: rest)
    /\ render (TreeRoot "") = ("/" ++ nl)%string.
Proof.
  do 2 eexists. split; [| reflexivity].
  rewrite write_tree_root_first, basename_trailing_sep. reflexivity.
Qed.

End Sections.

(** X6.  In the output of every run, completed or cut short, the begin
    markers and the end markers carry the same relative paths in the
    same order: no file is begun without being ended, and the tree
    section holds no marker. *)
Theorem markers_are_balanced (fs : FS) (config : Config) (fuel : nat)
    (parsed : Args) (evs : list event) :
  output (main fs config fuel parsed) = Some evs ->
  begin_paths evs = end_paths evs.
Proof.
  intros Ho. apply main_output in Ho. destruct Ho as (_ & pats & ->).
  set (args := normalise_args config parsed).
  change (balanced (snd (main_body fs config fuel args pats))).
  unfold main_body.
  repeat (apply (bind_inv balanced balanced_nil balanced_app);
          [first [ reflexivity
                 | apply dump_balanced
                 | unfold balanced, tree_section;
                   destruct (@tree_events_no_markers _
                               (@write_tree_events fs config args pats fuel
                                  (repo_path args) "" true true))
                     as [-> ->]; reflexivity ] | intros _]).
  reflexivity.
Qed.

Lemma markers_are_balanced_witness :
  begin_paths Example.run_events = end_paths Example.run_events.
Proof.
  apply (markers_are_balanced Example.fs Example.config 5 Example.args).
  vm_compute. reflexivity.
Defined.

(** ** Runs that write nothing, and runs that complete *)
Section Completion.
Import PyStr OsPath.

Variable fs : FS.
Variable config : Config.
Variable args : Args.
Variable pats : list string.

Lemma bind_write {B} (ev : event) (f : unit -> M B) :
  bind (write ev) f = (fst (f tt), ev :: snd (f tt)).
Proof. unfold bind, write. destruct (f tt). reflexivity. Qed.

Lemma for_each_all_skip {A} (body : A -> M unit) (l : list A) :
  (forall x, In x l -> body x = ret tt) -> for_each l body = ret tt.
Proof.
  induction l as [| x l IH]; intros H; [reflexivity |].
  simpl. rewrite (H x (or_introl eq_refl)), bind_ret_l.
  apply IH. intros y Hy. apply H. right. exact Hy.
Qed.

Lemma filter_m_all_dropped {A} (keep : A -> M bool) (l : list A) :
  (forall x, In x l -> keep x = ret false) -> filter_m keep l = ret [].
Proof.
  induction l as [| x l IH]; intros H; [reflexivity |].
  simpl. rewrite (H x (or_introl eq_refl)), bind_ret_l, IH.
  - reflexivity.
  - intros y Hy. apply H. right. exact Hy.
Qed.

(** X10.  When no entry of the root passes the include test, as with an
    include-directory that lies more than one level below the root, the
    directory itself is never reached: the tree is the root line alone
    and the content section is empty. *)
Theorem unreachable_include_dir_documents_nothing (n : nat)
    (dir prefix d : string) (il : bool) (depth : nat) (listed : list string) :
  include_dir args = Some d ->
  truthy d = true ->
  listdir fs dir = inl listed ->
  (forall item, In item listed ->
     startswith (os_abspath fs (join dir item)) (os_abspath fs d) = false) ->
  write_tree fs config (S n) dir args pats prefix il true
  = (Ok tt, [TreeRoot (basename dir)])
  /\ write_file_contents_in_order fs config (S n) dir args pats depth
     = (Ok tt, []).
Proof.
  intros Hd Ht HL Hall.
  assert (Hig : forall item, In item listed ->
            should_ignore fs config (join dir item) args (output_file args) pats
            = ret true).
  { intros item Hin. apply (include_rule_ignores fs config _ _ _ _ Hd Ht).
    apply Hall. exact Hin. }
  split.
  - rewrite write_tree_unfold. unfold os_listdir. rewrite HL.
    rewrite bind_write. cbn beta. rewrite bind_ret_l, for_each_all_skip.
    + reflexivity.
    + intros [i item] Hin. unfold tree_item. rewrite Hig; [reflexivity |].
      apply (proj1 (In_enumerate _ _ _)), nth_error_In in Hin.
      exact (proj1 (In_sort _ _) Hin).
  - rewrite dump_unfold. unfold os_listdir. rewrite HL, bind_ret_l.
    rewrite filter_m_all_dropped.
    + reflexivity.
    + intros item Hin. rewrite (Hig item Hin). reflexivity.
Qed.

Lemma relpath_some (cwd path start : string) :
  path <> "" -> exists r, relpath cwd path start = Some r.
Proof.
  intros H. unfold relpath. destruct path as [| a path]; [contradiction |].
  cbn [truthy negb].
  destruct (repeat ".." _ ++ skipn _ _); eauto.
Qed.

Lemma join_nonempty (a b : string) : a <> "" -> join a b <> "".
Proof.
  intros Ha. unfold join.
  destruct (startswith b "/") eqn:E.
  - destruct b; [discriminate | discriminate].
  - destruct (negb (truthy a) || endswith_char a sep);
      destruct a; try contradiction; discriminate.
Qed.

Lemma should_ignore_total (item : string) (out : string) :
  item <> "" -> exists b, should_ignore fs config item args out pats = ret b.
Proof.
  intros H. unfold should_ignore.
  repeat match goal with
         | |- context [if ?c then ret true else _] =>
             destruct c; [exists true; reflexivity |]
         end.
  destruct (use_gitignore args); [| exists false; reflexivity].
  rewrite gitignore_loop_unfold. destruct pats; [exists false; reflexivity |].
  unfold os_relpath.
  destruct (relpath_some (getcwd fs) (repo_path args) H) as [r ->].
  rewrite bind_ret_l. eauto.
Qed.

Lemma for_each_all_ok {A} (body : A -> M unit) (l : list A) :
  (forall x, In x l -> fst (body x) = Ok tt) -> fst (for_each l body) = Ok tt.
Proof.
  induction l as [| x l IH]; intros H; [reflexivity |].
  simpl. rewrite fst_bind, (H x (or_introl eq_refl)).
  apply IH. intros y Hy. apply H. right. exact Hy.
Qed.

Lemma filter_m_total {A} (keep : A -> M bool) (l : list A) :
  (forall x, In x l -> exists b, fst (keep x) = Ok b) ->
  exists kept, fst (filter_m keep l) = Ok kept.
Proof.
  induction l as [| x l IH]; intros H; [exists []; reflexivity |].
  destruct (H x (or_introl eq_refl)) as [b Hb].
  destruct IH as [kept Hk]; [intros y Hy; apply H; right; exact Hy |].
  simpl. rewrite fst_bind, Hb, fst_bind, Hk. eexists. reflexivity.
Qed.

Variable rank : string -> nat.
Hypothesis rank_decreases :
  forall dir listed item,
    listdir fs dir = inl listed -> In item listed ->
    isdir fs (join dir item) = true -> rank (join dir item) < rank dir.
Hypothesis listable :
  forall p, isdir fs p = true -> exists listed, listdir fs p = inl listed.

Lemma write_tree_completes (n : nat) :
  forall dir prefix il ir,
    dir <> "" -> isdir fs dir = true -> rank dir < n ->
    fst (write_tree fs config n dir args pats prefix il ir) = Ok tt.
Proof.
  induction n as [| n IH]; intros dir prefix il ir Hne Hd Hr; [lia |].
  rewrite write_tree_unfold, fst_bind_root, fst_bind.
  destruct (listable dir Hd) as [listed HL].
  unfold os_listdir. rewrite HL. cbn [fst ret].
  apply for_each_all_ok. intros [i item] Hin.
  apply (proj1 (In_enumerate _ _ _)), nth_error_In in Hin.
  apply (proj1 (In_sort _ _)) in Hin.
  destruct (should_ignore_total (output_file args) (join_nonempty item Hne))
    as [b Hb].
  destruct (tree_item_cases fs config args pats (write_tree fs config n) dir
              prefix (length (sort listed)) i item)
    as [(e & He & _) | [(_ & E1) | (_ & E1)]].
  - rewrite Hb in He. discriminate.
  - rewrite E1. reflexivity.
  - rewrite E1, fst_bind_write.
    destruct (isdir fs (join dir item)) eqn:Hd'; [| reflexivity].
    apply IH; [apply join_nonempty; exact Hne | exact Hd' |].
    pose proof (rank_decreases dir item HL Hin Hd'). lia.
Qed.

Lemma dump_completes (n : nat) :
  forall dir depth,
    dir <> "" -> isdir fs dir = true -> rank dir < n ->
    fst (write_file_contents_in_order fs config n dir args pats depth) = Ok tt.
Proof.
  induction n as [| n IH]; intros dir depth Hne Hd Hr; [lia |].
  rewrite dump_unfold, fst_bind.
  destruct (listable dir Hd) as [listed HL].
  unfold os_listdir. rewrite HL. cbn [fst ret]. rewrite fst_bind.
  destruct (filter_m_total
              (fun item =>
                 ignored <- should_ignore fs config (join dir item) args
                              (output_file args) pats ;;
                 ret (negb ignored)) listed) as [kept HK].
  { intros item _.
    destruct (should_ignore_total (output_file args) (join_nonempty item Hne))
      as [b Hb].
    rewrite Hb, bind_ret_l. eexists. reflexivity. }
  rewrite HK. apply for_each_all_ok. intros item Hin.
  apply (proj1 (In_sort _ _)) in Hin.
  apply (proj1 (filter_m_ok _ _ HK item)) in Hin. destruct Hin as [Hin _].
  unfold dump_item. unfold os_relpath.
  destruct (relpath_some (getcwd fs) (repo_path args)
              (join_nonempty item Hne)) as [r ->].
  rewrite bind_ret_l.
  destruct (isdir fs (join dir item)) eqn:Hd'.
  - apply IH; [apply join_nonempty; exact Hne | exact Hd' |].
    pose proof (rank_decreases dir item HL Hin Hd'). lia.
  - destruct (isfile fs (join dir item)); [| reflexivity].
    rewrite !fst_bind_write, fst_bind, write_file_content_spec. reflexivity.
Qed.

End Completion.

(** X11.  Once the output file is open and as long as every write to
    it succeeds, which [main] and [write] take for granted, a run
    completes and leaves a whole document whenever the root is a
    directory with a non-empty path, every directory can be listed, the
    directories nest less deep than the recursion limit, and the
    [.gitignore], if it is used and exists, can be read: unreadable
    files, entries of other kinds and ignored paths never stop the two
    passes. *)
Theorem run_completes (fs : FS) (config : Config) (rank : string -> nat)
    (fuel : nat) (parsed : Args) :
  (forall dir listed item,
      listdir fs dir = inl listed -> In item listed ->
      isdir fs (OsPath.join dir item) = true ->
      rank (OsPath.join dir item) < rank dir) ->
  (forall p, isdir fs p = true -> exists listed, listdir fs p = inl listed) ->
  repo_path parsed <> "" ->
  isdir fs (repo_path parsed) = true ->
  rank (repo_path parsed) < fuel ->
  (use_gitignore parsed = true ->
   exists_ fs (OsPath.join (repo_path parsed) ".gitignore") = true ->
   snd (read_file fs (OsPath.join (repo_path parsed) ".gitignore")) = None) ->
  status (main fs config fuel parsed) = Ok tt
  /\ exists evs, output (main fs config fuel parsed) = Some evs.
Proof.
  intros Hrank Hlist Hne Hd Hr Hgit. unfold main.
  set (args := normalise_args config parsed).
  change (use_gitignore args) with (use_gitignore parsed).
  change (repo_path args) with (repo_path parsed).
  assert (Hload : exists g,
             (if use_gitignore parsed
              then load_gitignore_patterns fs (repo_path parsed)
              else ret []) = (Ok g, [])).
  { destruct (use_gitignore parsed); [| eexists; reflexivity].
    unfold load_gitignore_patterns.
    destruct (exists_ fs (OsPath.join (repo_path parsed) ".gitignore"));
      [| eexists; reflexivity].
    specialize (Hgit eq_refl eq_refl).
    destruct (read_file fs (OsPath.join (repo_path parsed) ".gitignore"))
      as [lines failure]. simpl in Hgit. subst failure.
    eexists. reflexivity. }
  destruct Hload as [g ->]. rewrite Hd. cbn [negb].
  pose proof (main_body_status fs config fuel args g) as Hs.
  unfold tree_section, content_section in Hs.
  change (repo_path args) with (repo_path parsed) in Hs.
  rewrite (@write_tree_completes fs config args g rank Hrank Hlist fuel
             (repo_path parsed) "" true true Hne Hd Hr) in Hs.
  rewrite (@dump_completes fs config args g rank Hrank Hlist fuel
             (repo_path parsed) 0 Hne Hd Hr) in Hs.
  destruct (main_body fs config fuel args g) as [r w]. simpl in Hs. subst r.
  split; [reflexivity | eexists; reflexivity].
Qed.

Lemma unreachable_include_dir_documents_nothing_witness :
  write_tree Example.fs Example.config 1 "/r"
    (Example.with_include "sub/inner") [] "" true true
  = (Ok tt, [TreeRoot (OsPath.basename "/r")])
  /\ write_file_contents_in_order Example.fs Example.config 1 "/r"
       (Example.with_include "sub/inner") [] 0
     = (Ok tt, []).
Proof.
  eapply (@unreachable_include_dir_documents_nothing Example.fs Example.config
            (Example.with_include "sub/inner") [] 0 "/r" "" "sub/inner" true 0);
    [reflexivity | reflexivity | reflexivity |].
  intros item Hin. vm_compute in Hin.
  repeat (destruct Hin as [<- | Hin]; [vm_compute; reflexivity |]).
  destruct Hin.
Defined.

Lemma example_listable (p : string) :
  isdir Example.fs p = true -> exists listed, listdir Example.fs p = inl listed.
Proof.
  unfold isdir, Example.fs, kind, Example.lookup, Example.kinds.
  cbn [find fst snd].
  repeat match goal with
         | |- context [String.eqb ?k p] =>
             destruct (String.eqb_spec k p) as [E | _];
             [rewrite <- E; clear E p |]
         end;
    cbn; intros H; try discriminate; eexists; vm_compute; reflexivity.
Qed.

Lemma run_completes_witness :
  status (main Example.fs Example.config 5 Example.args) = Ok tt
  /\ exists evs,
       output (main Example.fs Example.config 5 Example.args) = Some evs.
Proof.
  apply (run_completes Example.fs Example.config Example.rank).
  - exact example_rank_decreases.
  - exact example_listable.
  - discriminate.
  - reflexivity.
  - vm_compute. lia.
  - discriminate.
Defined.

(** ** The order of the two sections *)
Section SortFacts.

Lemma ascii_compare_trans_lt (x y z : ascii) :
  Ascii.compare x y = Lt -> Ascii.compare y z = Lt -> Ascii.compare x z = Lt.
Proof.
  unfold Ascii.compare. rewrite !N.compare_lt_iff. apply N.lt_trans.
Qed.

Lemma name_le_trans (a b c : string) :
  name_le a b -> name_le b c -> name_le a c.
Proof.
  unfold name_le, String.leb. revert b c.
  induction a as [| x a IH]; intros [| y b] [| z c]; simpl; try congruence.
  destruct (Ascii.compare x y) eqn:Exy; try discriminate.
  - apply Ascii.compare_eq_iff in Exy. subst y.
    destruct (Ascii.compare x z); try congruence. apply IH.
  - intros _. destruct (Ascii.compare y z) eqn:Eyz; try discriminate.
    + apply Ascii.compare_eq_iff in Eyz. subst z. rewrite Exy. reflexivity.
    + rewrite (@ascii_compare_trans_lt _ _ _ Exy Eyz). reflexivity.
Qed.

Lemma name_le_total (a b : string) : name_le a b \/ name_le b a.
Proof. apply String.leb_total. Qed.

Lemma insert_sorted_strongly (x : string) (l : list string) :
  StronglySorted name_le l -> StronglySorted name_le (insert_sorted x l).
Proof.
  induction l as [| y l IH]; intros H; simpl.
  - constructor; constructor.
  - inversion H as [| ? ? Hl Hy]; subst.
    destruct (String.leb x y) eqn:E.
    + constructor; [exact H |]. constructor; [exact E |].
      apply Forall_forall. intros z Hz.
      apply (@name_le_trans x y z E). revert z Hz. apply Forall_forall. exact Hy.
    + constructor; [apply IH; exact Hl |].
      apply Forall_forall. intros z Hz.
      apply In_insert_sorted in Hz. destruct Hz as [-> | Hz].
      * destruct (name_le_total x y) as [Hxy | Hyx]; [| exact Hyx].
        unfold name_le in Hxy. congruence.
      * revert z Hz. apply Forall_forall. exact Hy.
Qed.

Lemma sort_strongly (l : list string) : StronglySorted name_le (sort l).
Proof.
  induction l as [| x l IH]; simpl; [constructor |].
  apply insert_sorted_strongly. exact IH.
Qed.

Lemma insert_sorted_head (x : string) (l : list string) :
  Forall (name_le x) l -> insert_sorted x l = x :: l.
Proof.
  destruct l as [| y l]; [reflexivity |]. intros H. inversion H; subst.
  simpl. unfold name_le in *. now rewrite H2.
Qed.

(** Inserting in a sorted list commutes with filtering. *)
Lemma filter_insert_sorted (f : string -> bool) (x : string) (s : list string) :
  StronglySorted name_le s ->
  filter f (insert_sorted x s)
  = if f x then insert_sorted x (filter f s) else filter f s.
Proof.
  induction s as [| y s IH]; intros H.
  - simpl. destruct (f x); reflexivity.
  - inversion H as [| ? ? Hs Hy]; subst. simpl.
    destruct (String.leb x y) eqn:E.
    + cbn [filter]. destruct (f x); [| reflexivity].
      symmetry. apply insert_sorted_head.
      apply Forall_forall. intros z Hz.
      assert (Hz' : In z (y :: s)).
      { change (In z (filter f (y :: s))) in Hz.
        apply filter_In in Hz. apply Hz. }
      destruct Hz' as [Heq | Hz']; [rewrite <- Heq; exact E |].
      apply (@name_le_trans x y z E). clear Hz. revert z Hz'.
      apply Forall_forall. exact Hy.
    + cbn [filter]. rewrite (IH Hs).
      destruct (f y), (f x); try reflexivity.
      simpl. rewrite E. reflexivity.
Qed.

(** Sorting what the filter keeps gives what the filter keeps of the
    sorted list. *)
Lemma sort_filter (f : string -> bool) (l : list string) :
  sort (filter f l) = filter f (sort l).
Proof.
  induction l as [| x l IH]; [reflexivity |].
  simpl. rewrite filter_insert_sorted by apply sort_strongly.
  destruct (f x); simpl; now rewrite IH.
Qed.

End SortFacts.

Lemma flat_map_ext_in {A B} (f g : A -> list B) (l : list A) :
  (forall x, In x l -> f x = g x) -> flat_map f l = flat_map g l.
Proof.
  induction l as [| x l IH]; intros H; [reflexivity |].
  simpl. rewrite (H x (or_introl eq_refl)), IH; [reflexivity |].
  intros y Hy. apply H. right. exact Hy.
Qed.

Lemma flat_map_flat_map {A B C} (f : A -> list B) (g : B -> list C)
    (l : list A) :
  flat_map g (flat_map f l) = flat_map (fun x => flat_map g (f x)) l.
Proof.
  induction l as [| x l IH]; [reflexivity |].
  simpl. now rewrite flat_map_app, IH.
Qed.

Lemma flat_map_enumerate_from {A B} (g : A -> list B) (l : list A) (s : nat) :
  flat_map (fun x => g (snd x)) (combine (seq s (length l)) l) = flat_map g l.
Proof.
  revert s. induction l as [| x l IH]; intros s; [reflexivity |].
  simpl. now rewrite IH.
Qed.

Lemma flat_map_filter {A B} (keep : A -> bool) (g : A -> list B) (l : list A) :
  flat_map (fun x => if keep x then g x else []) l = flat_map g (filter keep l).
Proof.
  induction l as [| x l IH]; [reflexivity |].
  simpl. rewrite IH. destruct (keep x); reflexivity.
Qed.

Lemma filter_m_filter {A} (keep : A -> M bool) (l kept : list A) :
  fst (filter_m keep l) = Ok kept ->
  kept = filter (fun x => match fst (keep x) with
                          | Ok b => b
                          | _ => false
                          end) l.
Proof.
  revert kept. induction l as [| x l IH]; intros kept H.
  - injection H as <-. reflexivity.
  - simpl in H. apply bind_ok in H. destruct H as (k & Hk & H & _).
    apply bind_ok in H. destruct H as (rest & Hrest & H & _).
    simpl in H. injection H as <-. simpl. rewrite Hk, <- (IH _ Hrest).
    reflexivity.
Qed.

Lemma filter_m_all_ok {A} (keep : A -> M bool) (l kept : list A) :
  fst (filter_m keep l) = Ok kept ->
  forall x, In x l -> exists b, fst (keep x) = Ok b.
Proof.
  revert kept. induction l as [| y l IH]; intros kept H x; [intros [] |].
  simpl in H. apply bind_ok in H. destruct H as (k & Hk & H & _).
  apply bind_ok in H. destruct H as (rest & Hrest & _).
  intros [<- | Hx]; [eauto | exact (IH _ Hrest x Hx)].
Qed.

Lemma tree_files_flat_map {A} (fs : FS) (f : A -> list event) (l : list A) :
  tree_files fs (flat_map f l) = flat_map (fun x => tree_files fs (f x)) l.
Proof. apply flat_map_flat_map. Qed.

Lemma dumped_files_flat_map {A} (f : A -> list event) (l : list A) :
  dumped_files (flat_map f l) = flat_map (fun x => dumped_files (f x)) l.
Proof. apply flat_map_flat_map. Qed.

Lemma tree_files_root (fs : FS) (ir : bool) (name : string) :
  tree_files fs (snd (if ir then write (TreeRoot name) else ret tt)) = [].
Proof. destruct ir; reflexivity. Qed.

Section SameOrder.
Import PyStr OsPath.

Variable fs : FS.
Variable config : Config.
Variable args : Args.
Variable pats : list string.

Lemma tree_files_of_dump_events (evs : list event) :
  (forall ev, In ev evs -> is_dump_event ev) -> tree_files fs evs = [].
Proof.
  induction evs as [| ev evs IH]; intros H; [reflexivity |].
  simpl. rewrite IH by (intros; apply H; right; assumption).
  pose proof (H ev (or_introl eq_refl)) as Hev.
  destruct ev; simpl in Hev; try contradiction; reflexivity.
Qed.

Lemma dumped_files_of_tree_events (evs : list event) :
  (forall ev, In ev evs -> is_tree_event ev) -> dumped_files evs = [].
Proof.
  induction evs as [| ev evs IH]; intros H; [reflexivity |].
  simpl. rewrite IH by (intros; apply H; right; assumption).
  pose proof (H ev (or_introl eq_refl)) as Hev.
  destruct ev; simpl in Hev; try contradiction; reflexivity.
Qed.

(** When both passes over a directory complete, the tree lists the
    regular files in the order in which the dump begins them. *)
Lemma passes_same_order (n : nat) :
  forall (dir prefix : string) (il ir : bool) (depth : nat),
    fst (write_tree fs config n dir args pats prefix il ir) = Ok tt ->
    fst (write_file_contents_in_order fs config n dir args pats depth) = Ok tt ->
    tree_files fs (snd (write_tree fs config n dir args pats prefix il ir))
    = dumped_files
        (snd (write_file_contents_in_order fs config n dir args pats depth)).
Proof.
  induction n as [| n IH]; intros dir prefix il ir depth HT HD;
    [discriminate |].
  rewrite write_tree_unfold in *. rewrite dump_unfold in *.
  apply bind_ok in HT. destruct HT as ([] & _ & HT & ->).
  apply bind_ok in HT. destruct HT as (listed & HL & HT & ->).
  apply bind_ok in HD. destruct HD as (listed' & HL' & HD & ->).
  rewrite HL in HL'. injection HL' as <-.
  apply bind_ok in HD. destruct HD as (kept & HK & HD & ->).
  apply for_each_ok in HT. destruct HT as [HTall ->].
  apply for_each_ok in HD. destruct HD as [HDall ->].
  rewrite filter_m_silent by (intros x; apply keep_silent).
  destruct (os_listdir_cases fs dir) as [(l & _ & E) | (e & E)];
    rewrite E in *; [| discriminate]. simpl snd. clear E l HL.
  rewrite !tree_files_app, tree_files_root. simpl app.
  set (vis := fun item =>
                negb (is_ignored fs config args pats (join dir item))).
  assert (Hkept : sort kept = filter vis (sort listed)).
  { rewrite <- sort_filter. f_equal.
    rewrite (filter_m_filter _ _ HK). apply filter_ext_in.
    intros item Hin.
    destruct (filter_m_all_ok _ _ HK item Hin) as [b Hb].
    rewrite Hb. rewrite fst_bind in Hb. unfold vis, is_ignored.
    destruct (fst (should_ignore fs config (join dir item) args
                     (output_file args) pats)) as [b' | e |];
      try discriminate.
    simpl in Hb. injection Hb as <-. reflexivity. }
  rewrite tree_files_flat_map, dumped_files_flat_map, Hkept.
  rewrite <- flat_map_filter.
  rewrite <- (flat_map_enumerate_from
                (fun item =>
                   if vis item
                   then dumped_files
                          (snd (dump_item fs args pats
                                  (write_file_contents_in_order fs config n)
                                  dir depth item))
                   else []) (sort listed) 0).
  fold (enumerate (sort listed)).
  apply flat_map_ext_in. intros [i item] Hin. cbn [snd]. unfold vis.
  destruct (tree_item_ok fs config args pats _ _ _ _ _ _ (HTall _ Hin))
    as [(Hk & E) | (Hk & E & Hsub)]; rewrite E;
    rewrite (is_ignored_ret fs config args pats _ Hk); [reflexivity |].
  cbn [negb].
  assert (Hitem : In item (sort kept)).
  { apply In_sort. apply (filter_m_ok _ _ HK). split.
    - apply (proj1 (In_enumerate _ _ _)), nth_error_In in Hin.
      exact (proj1 (In_sort _ _) Hin).
    - rewrite Hk. reflexivity. }
  destruct (dump_item_ok fs args pats _ _ _ _ (HDall _ Hitem))
    as (rel & [(Hd & Hok & E') | [(Hd & Hf & E') | (Hd & Hf & E')]]);
    rewrite E'; rewrite Hd in *.
  - unfold tree_line. cbn [tree_files flat_map fst snd].
    rewrite (isdir_not_isfile fs _ Hd). cbn [app].
    apply (IH _ _ _ _ _ (Hsub eq_refl) Hok).
  - unfold tree_line. cbn [tree_files flat_map fst snd app].
    rewrite Hf.
    change (FileBegins (join dir item) depth rel :: ?x)
      with ([FileBegins (join dir item) depth rel] ++ x).
    rewrite !dumped_files_app, dumped_files_content. reflexivity.
  - unfold tree_line. cbn [tree_files flat_map fst snd app].
    rewrite Hf. reflexivity.
Qed.

End SameOrder.

(** X12.  In a run that completes, the content section dumps the
    regular files in the very order in which the tree section lists
    them: read from top to bottom, the two sections name the same files
    in the same sequence. *)
Theorem sections_list_files_in_the_same_order (fs : FS) (config : Config)
    (fuel : nat) (parsed : Args) (evs : list event) :
  status (main fs config fuel parsed) = Ok tt ->
  output (main fs config fuel parsed) = Some evs ->
  tree_files fs evs = dumped_files evs.
Proof.
  intros Hs Ho.
  destruct (main_completed _ _ _ _ Hs Ho)
    as (pats & t1 & t2 & t3 & t4 & t5 & t6 & HT & HD & ->).
  set (args := normalise_args config parsed) in *.
  unfold tree_section, content_section in *.
  rewrite !tree_files_app, !dumped_files_app.
  rewrite (@tree_files_of_dump_events fs _
             (@dump_events fs config args pats fuel (repo_path args) 0)).
  rewrite (@dumped_files_of_tree_events _
             (@write_tree_events fs config args pats fuel (repo_path args)
                "" true true)).
  cbn [tree_files dumped_files flat_map app]. rewrite !app_nil_r.
  apply (passes_same_order fs config args pats fuel _ _ _ _ _ HT HD).
Qed.

Lemma sections_list_files_in_the_same_order_witness :
  tree_files Example.fs Example.run_events
  = dumped_files Example.run_events.
Proof.
  apply (sections_list_files_in_the_same_order Example.fs Example.config 5
           Example.args); vm_compute; reflexivity.
Defined.

(** ** The lines of the tree and the patterns *)
Section TreeLines.
Import PyStr OsPath.

Lemma split_app_sep (a b : string) :
  split sep (a ++ String sep b) = split sep a ++ split sep b.
Proof.
  induction a as [| c a IH].
  - simpl. reflexivity.
  - simpl. destruct (Ascii.eqb c sep); [now rewrite IH |].
    rewrite IH. pose proof (split_nonempty sep a).
    destruct (split sep a); [contradiction | reflexivity].
Qed.

Lemma last_app_nonempty {A} (l1 l2 : list A) (d : A) :
  l2 <> [] -> last (l1 ++ l2) d = last l2 d.
Proof.
  intros H. induction l1 as [| x l1 IH]; [reflexivity |].
  simpl. rewrite IH. destruct (l1 ++ l2) eqn:E; [| reflexivity].
  apply app_eq_nil in E. destruct E as [_ E]. contradiction.
Qed.

Lemma basename_app_sep (a b : string) :
  basename (a ++ String sep b) = basename b.
Proof.
  unfold basename. rewrite split_app_sep.
  apply last_app_nonempty, split_nonempty.
Qed.

Lemma endswith_char_app (a : string) (c : ascii) :
  endswith_char a c = true -> exists a', a = (a' ++ String c "")%string.
Proof.
  induction a as [| x a IH]; [discriminate |].
  destruct a as [| y a].
  - simpl. intros H. apply Ascii.eqb_eq in H. subst. exists "". reflexivity.
  - intros H. change (endswith_char (String y a) c = true) in H.
    destruct (IH H) as [a' E]. exists (String x a'). simpl. now rewrite <- E.
Qed.

Lemma string_app_assoc (a b c : string) :
  ((a ++ b) ++ c)%string = (a ++ (b ++ c))%string.
Proof. induction a as [| x a IH]; simpl; [reflexivity | now rewrite IH]. Qed.

(** The name after the last slash of a joined path is that of the part
    joined last. *)
Lemma basename_join (a b : string) : basename (join a b) = basename b.
Proof.
  unfold join. destruct (startswith b "/"); [reflexivity |].
  destruct a as [| x a]; [reflexivity |].
  cbn [truthy negb orb].
  destruct (endswith_char (String x a) sep) eqn:E.
  - destruct (endswith_char_app _ _ E) as [a' ->].
    rewrite string_app_assoc. apply basename_app_sep.
  - apply (basename_app_sep (String x a) b).
Qed.

Variable fs : FS.
Variable config : Config.
Variable args : Args.
Variable pats : list string.

(** X13.  Every line of the tree is built the same way.  The path it
    stands for is reached from the directory the rendering started at
    through a chain of listed directories, and its indentation is the
    starting prefix followed by exactly one unit of four characters for
    each directory of that chain: four blanks if the directory stood
    last in the sorted listing of its parent, a bar and three blanks if
    not; so a child of the starting directory has no unit and an entry
    [k] directories further down has [k].  Its glyph is the corner or
    the tee, and the name it shows is the basename of its path. *)
Theorem tree_lines_are_well_formed (n : nat) :
  forall dir prefix il ir p pre np name,
    In (TreeEntry p pre np name)
       (snd (write_tree fs config n dir args pats prefix il ir)) ->
    (exists lasts,
        descends fs dir lasts p
        /\ pre = (prefix ++ indent_units lasts)%string)
    /\ (np = corner \/ np = tee)
    /\ name = basename p.
Proof.
  induction n as [| n IH]; intros dir prefix il ir p pre np name H.
  - destruct H.
  - rewrite write_tree_unfold in H.
    apply bind_In in H. destruct H as [H | (_ & _ & H)].
    { destruct ir; simpl in H; [destruct H as [H | []]; discriminate | destruct H]. }
    apply bind_In in H. destruct H as [H | (listed & HL & H)].
    { destruct (os_listdir_cases fs dir) as [(l & _ & E) | (e & E)];
        rewrite E in H; destruct H. }
    assert (HL' : listdir fs dir = inl listed).
    { unfold os_listdir in HL. destruct (listdir fs dir); [| discriminate].
      injection HL as ->. reflexivity. }
    apply for_each_In in H. destruct H as ([i item] & Hin & H).
    apply (proj1 (In_enumerate _ _ _)) in Hin.
    destruct (tree_item_cases fs config args pats (write_tree fs config n) dir
                prefix (length (sort listed)) i item)
      as [(e & _ & E) | [(_ & E) | (_ & E)]]; rewrite E in H;
      try (destruct H; fail).
    apply bind_In in H. destruct H as [H | (_ & _ & H)].
    + destruct H as [H | []]. unfold tree_line in H. simpl in H.
      injection H as <- <- <- <-. split; [| split].
      * exists []. split; [eapply descends_child; eassumption |].
        simpl. clear. induction prefix; simpl; congruence.
      * destruct (i =? length (sort listed) - 1)%nat; auto.
      * symmetry. apply basename_join.
    + destruct (isdir fs (join dir item)) eqn:Hd; [| destruct H].
      apply IH in H. destruct H as ((lasts & Hdesc & ->) & Hnp & Hname).
      split; [| split; assumption].
      exists ((i =? length (sort listed) - 1)%nat :: lasts). split.
      * eapply descends_step; eassumption.
      * rewrite string_app_assoc. simpl.
        destruct (i =? length (sort listed) - 1)%nat; reflexivity.
Qed.

Lemma gitignore_match_app (rel : string) (p1 p2 : list string) :
  gitignore_match rel (p1 ++ p2)
  = gitignore_match rel p1 || gitignore_match rel p2.
Proof. apply existsb_app. Qed.

(** X14.  Patterns only ever add to what is ignored: a path that
    [should_ignore] ignores under some patterns is ignored under any
    longer list of patterns, in whatever place the new patterns stand;
    no pattern re-includes a path. *)
Theorem more_patterns_ignore_more (item : string) (out : string)
    (before more : list string) :
  should_ignore fs config item args out pats = ret true ->
  should_ignore fs config item args out (before ++ pats ++ more) = ret true.
Proof.
  unfold should_ignore.
  repeat match goal with
         | |- context [if ?c then ret true else _] =>
             destruct c; [reflexivity |]
         end.
  destruct (use_gitignore args); [| discriminate].
  rewrite !gitignore_loop_unfold.
  destruct pats as [| q rest] eqn:Ep; [discriminate |].
  rewrite <- Ep.
  assert (Hne : before ++ pats ++ more <> []).
  { rewrite Ep. destruct before; discriminate. }
  destruct (before ++ pats ++ more) as [| q' rest'] eqn:El; [contradiction |].
  rewrite <- El. unfold os_relpath.
  destruct (relpath (getcwd fs) item (repo_path args)) as [rel |];
    [| discriminate].
  rewrite !bind_ret_l. intros H. injection H as H.
  rewrite !gitignore_match_app, H, orb_true_r. reflexivity.
Qed.

End TreeLines.

Lemma tree_lines_are_well_formed_witness :
  (exists lasts,
      descends Example.fs "/r" lasts "/r/sub/c.txt"
      /\ "│   "%string = ("" ++ indent_units lasts)%string)
  /\ ("├── "%string = corner \/ "├── "%string = tee)
  /\ "c.txt"%string = OsPath.basename "/r/sub/c.txt".
Proof.
  apply (@tree_lines_are_well_formed Example.fs Example.config
           (normalise_args Example.config Example.args) [] 5 "/r" "" true true
           "/r/sub/c.txt" "│   " "├── " "c.txt").
  vm_compute. tauto.
Defined.

Lemma more_patterns_ignore_more_witness :
  should_ignore Example.fs Example.config "/r/build/o.txt"
    Example.with_gitignore "out.txt" (["!build/o.txt"] ++ ["build"] ++ ["docs"])
  = ret true.
Proof.
  apply (@more_patterns_ignore_more Example.fs Example.config
           Example.with_gitignore ["build"] "/r/build/o.txt" "out.txt"
           ["!build/o.txt"] ["docs"]).
  reflexivity.
Defined.
